(** * Ledger signer session: status state machine, poller and derivation

    A shallow embedding of [src/main/signers/ledger/Ledger/index.ts] (the
    [Ledger] class and its module-level helpers) and of the part of
    [src/main/signers/ledger/Ledger/eth.ts] it calls ([getPath]).

    The session is a record; every method is a function on that record.
    An [async] method is cut at its [await]s: what runs before the first
    [await] is one function, what runs once the awaited call has settled is
    another one, and the state may change in between.  Closures handed to the
    request queue or to [setTimeout] are represented by the data they
    capture. *)

From Stdlib Require Import ZArith List String Ascii Bool Lia DecimalString DecimalNat
  DecimalFacts.
From stdpp Require Import base gmap.
Import ListNotations.
Local Open Scope string_scope.
Local Open Scope list_scope.
Local Open Scope Z_scope.

(** ** Constants and plain data *)

(** The [STATUS] table: statuses are JavaScript strings, compared by [===]. *)
Module STATUS.
Definition INITIAL : string := "Connecting".
Definition OK : string := "ok".
Definition LOADING : string := "loading".
Definition DERIVING : string := "Deriving addresses".
Definition LOCKED : string := "Please unlock your ledger".
Definition WRONG_APP : string := "Open your Ledger and select the Ethereum application".
Definition DISCONNECTED : string := "Disconnected".
Definition NEEDS_RECONNECTION : string := "Please reconnect this Ledger device".
End STATUS.

(** [err.statusCode]: thrown values that are plain [Error]s carry no
    [statusCode] (it reads as [undefined]), hence the option. *)
Record DeviceError := mkDeviceError {
  statusCode : option Z;
  message : string
}.

Record Address := mkAddress {
  address : string;
  publicKey : string;
  chainCode : option string
}.

(** [enum Derivation] of eth.ts. *)
Inductive Derivation := live | legacy | standard | testnet.

Definition Derivation_eqb (a b : Derivation) : bool :=
  match a, b with
  | live, live | legacy, legacy | standard, standard | testnet, testnet => true
  | _, _ => false
  end.

(** [xs.includes(err.statusCode)] on a list of numbers. *)
Definition includes (xs : list Z) (v : option Z) : bool :=
  match v with
  | Some c => existsb (Z.eqb c) xs
  | None => false
  end.

(** ** The error classifier *)

Definition isDeviceAsleep (err : DeviceError) : bool :=
  includes [27404] (statusCode err).

Definition needToOpenEthApp (err : DeviceError) : bool :=
  includes [27904; 27906; 25873; 25871] (statusCode err).

Definition getStatusForError (err : DeviceError) : string :=
  if needToOpenEthApp err then STATUS.WRONG_APP
  else if isDeviceAsleep err then STATUS.LOCKED
  else STATUS.NEEDS_RECONNECTION.

(** The error object built from a bare numeric code, as in
    [{ statusCode, message: '' }]. *)
Definition errorOfCode (c : Z) : DeviceError := mkDeviceError (Some c) "".

(** A character of a string is one UTF-16 code unit below 256 (the Latin-1
    range; an address is "0x" and hexadecimal digits).  The upper-case
    letters among these are 'A'..'Z' and U+00C0..U+00DE without the
    multiplication sign U+00D7. *)
Definition isUpperCase (c : ascii) : bool :=
  let n := nat_of_ascii c in
  ((Nat.leb 65 n && Nat.leb n 90)
   || (Nat.leb 192 n && Nat.leb n 222 && negb (Nat.eqb n 215)))%bool.

(** What [toLowerCase] does to one such code unit: an upper-case letter
    goes to the code unit 32 above it, anything else stays. *)
Definition lowerCodeUnit (c : ascii) : ascii :=
  if isUpperCase c then ascii_of_nat (nat_of_ascii c + 32)%nat else c.

(** [String.prototype.toLowerCase] on these strings. *)
Fixpoint toLowerCase (s : string) : string :=
  match s with
  | EmptyString => EmptyString
  | String c rest => String (lowerCodeUnit c) (toLowerCase rest)
  end.

(** [`${index}`]: decimal rendering of an index. *)
Definition showIndex (index : nat) : string :=
  NilZero.string_of_uint (Nat.to_uint index).

(** ** eth.ts: derivation paths *)

(** [derivationPaths]: the table has no entry for [Derivation.live]. *)
Definition derivationPaths (d : Derivation) : option string :=
  match d with
  | legacy => Some "44'/60'/0'/"
  | standard => Some "44'/60'/0'/0/"
  | testnet => Some "44'/1'/0'/0/"
  | live => None
  end.

(** [LedgerEthereumApp.getPath].  The second branch is never reached with
    [live], so the table lookup is defined there; ["undefined"] is what
    JavaScript's [+] would print for a missing entry. *)
Definition getPath (d : Derivation) (index : nat) : string :=
  if Derivation_eqb d live then ("44'/60'/" ++ showIndex index ++ "'/0/0")%string
  else match derivationPaths d with
       | Some p => (p ++ showIndex index)%string
       | None => ("undefined" ++ showIndex index)%string
       end.

(** ** Device calls and how they settle *)

(** A promise returned by the device SDK either resolves or rejects. *)
Inductive Settlement (A : Type) :=
| Resolved (a : A)
| Rejected (e : DeviceError).
Arguments Resolved {A} a.
Arguments Rejected {A} e.

(** What the device does with one call: it settles [ms] milliseconds after
    the call was issued, or never does. *)
Inductive Answer (A : Type) :=
| Within (ms : Z) (x : Settlement A)
| Never.
Arguments Within {A} ms x.
Arguments Never {A}.

(** [new Promise((resolve, reject) => { setTimeout(() => <settle>, t); call.then(..).catch(..) })]:
    the first settlement wins, later ones are ignored.  [timer] is the delay
    and what the timer's callback settles the promise with, if a timer is
    set.  [None] is a promise that stays pending (no timer and a device that
    never answers).  A device that settles at the very instant the timer is
    due is taken to have lost the race. *)
Definition race {A} (timer : option (Z * Settlement A)) (a : Answer A) : option (Settlement A) :=
  match timer, a with
  | None, Within _ x => Some x
  | None, Never => None
  | Some (t, late), Within ms x => if ms <? t then Some x else Some late
  | Some (t, late), Never => Some late
  end.

Record AppConfiguration := mkAppConfiguration { version : option string }.

(** The device (and, for [deriveAddresses], the external address expansion
    that eth.ts runs on the device's reply) as seen from the session. *)
Record Device := mkDevice {
  dev_getAddress : string -> bool -> bool -> Answer Address;
  dev_deriveAddresses : Derivation -> Answer (list string);
  dev_getAppConfiguration : Answer AppConfiguration
}.

(** ** Requests and the request queue *)

(** One invocation [cb(err, result)] of a [Callback]: [err] is the error's
    message or [null], [result] is the flag or [undefined]. *)
Record CallbackCall := mkCall {
  cb_err : option string;
  cb_result : option bool
}.

(** A caller's [Callback], as far as the class can tell: invoked with
    [cb(err, result)] it returns ([None]) or throws ([Some e]).  A callback
    that calls back into the session is not covered. *)
Definition Callback : Type := CallbackCall -> option DeviceError.

(** The default [cb = () => {}]. *)
Definition noCallback : Callback := fun _ => None.

(** The request objects the session builds.  Each [execute] closure is
    represented by its kind and the variables it captures: the status seen
    by [pollDeviceStatus], the loop index [i], [targetDerivation], and the
    arguments of [verifyAddress]. *)
Inductive Request :=
| CheckDeviceStatusRequest (lastStatus : string)
| DeriveLiveRequest (i : nat)
| DeriveHardwareRequest (targetDerivation : option Derivation)
| VerifyAddressRequest (index : nat) (currentAddress : string) (display : bool)
    (cb : Callback).

Definition type (r : Request) : string :=
  match r with
  | CheckDeviceStatusRequest _ => "checkDeviceStatus"
  | DeriveLiveRequest _ => "deriveAddresses"
  | DeriveHardwareRequest _ => "deriveAddresses"
  | VerifyAddressRequest _ _ _ _ => "verifyAddress"
  end.

Module RequestQueue.

(** Modelled from the spec: the class [RequestQueue] of [./requestQueue]
    is not among the sources.  Its data model is "ordered sequence of
    pending Requests (FIFO), a running flag, and a reference to the request
    currently executing (if any)". *)
Record t := mk {
  running : bool;
  pending : list Request;
  current : option Request
}.

(** Modelled from the spec: the queue a session is created with, before
    [start()]. *)
Definition empty : t := mk false [] None.

(** Modelled from the spec: "start() — begin processing (idempotent)". *)
Definition start (q : t) : t := mk true (pending q) (current q).

(** Modelled from the spec: "add(request) — append to tail". *)
Definition add (r : Request) (q : t) : t :=
  mk (running q) (pending q ++ [r]) (current q).

(** Modelled from the spec: "clear() — discard all pending (not-started)
    Requests, leaving any currently-executing Request to finish normally". *)
Definition clear (q : t) : t := mk (running q) [] (current q).

(** Modelled from the spec: "peekBack() — inspect the most recently
    enqueued Request without mutation". *)
Definition peekBack (q : t) : option Request := last (pending q).

(** Modelled from the spec: "close() — stop accepting new work and clear
    pending work": a queue that is not running begins no request. *)
Definition close (q : t) : t := mk false [] (current q).

(** Modelled from the spec: "Requests execute strictly in FIFO order; the
    queue does not begin the next Request until the current one's
    asynchronous operation settles".  [next] takes the head request when
    the queue is running and idle. *)
Definition next (q : t) : option (Request * t) :=
  if running q then
    match current q, pending q with
    | None, r :: rest => Some (r, mk true rest (Some r))
    | _, _ => None
    end
  else None.

(** Modelled from the spec: the current request's operation has settled. *)
Definition settle (q : t) : t := mk (running q) (pending q) None.

End RequestQueue.

(** ** The session *)

(** [LedgerEthereumApp]: the SDK object bound to an open transport. *)
Record LedgerEthereumApp := mkApp { transport : string }.

(** The callbacks the class hands to [setTimeout] for [statusPoller]:
    the constructor's [() => {}] and the tick of [pollDeviceStatus], which
    captures [frequency] and [lastStatus]. *)
Inductive TimerCallback :=
| NoOp
| PollTick (frequency : Z) (lastStatus : string).

(** An instance of [Ledger], together with the part of the JavaScript
    runtime its methods act on: the timers that are scheduled and not yet
    fired or cleared ([timers], keyed by the handle [setTimeout] returned),
    the number of [close()] calls suspended at [await this.eth.close()]
    ([closing]) and the events passed to [emit], oldest first ([emitted]).
    [id], [type], [coinbase] and [appVersion] are never read by the methods
    below and have no field. *)
Record Ledger := mkLedger {
  eth : option LedgerEthereumApp;
  devicePath : string;
  derivation : option Derivation;
  accountLimit : nat;
  requestQueue : RequestQueue.t;
  statusPoller : nat;
  status : string;
  addresses : list string;
  timers : gmap nat TimerCallback;
  nextTimer : nat;
  closing : nat;
  emitted : list string
}.

Definition set_eth (v : option LedgerEthereumApp) (s : Ledger) : Ledger :=
  mkLedger v (devicePath s) (derivation s) (accountLimit s) (requestQueue s)
    (statusPoller s) (status s) (addresses s) (timers s) (nextTimer s)
    (closing s) (emitted s).

Definition set_derivation (v : option Derivation) (s : Ledger) : Ledger :=
  mkLedger (eth s) (devicePath s) v (accountLimit s) (requestQueue s)
    (statusPoller s) (status s) (addresses s) (timers s) (nextTimer s)
    (closing s) (emitted s).

Definition set_requestQueue (v : RequestQueue.t) (s : Ledger) : Ledger :=
  mkLedger (eth s) (devicePath s) (derivation s) (accountLimit s) v
    (statusPoller s) (status s) (addresses s) (timers s) (nextTimer s)
    (closing s) (emitted s).

Definition set_statusPoller (v : nat) (s : Ledger) : Ledger :=
  mkLedger (eth s) (devicePath s) (derivation s) (accountLimit s) (requestQueue s)
    v (status s) (addresses s) (timers s) (nextTimer s)
    (closing s) (emitted s).

Definition set_status (v : string) (s : Ledger) : Ledger :=
  mkLedger (eth s) (devicePath s) (derivation s) (accountLimit s) (requestQueue s)
    (statusPoller s) v (addresses s) (timers s) (nextTimer s)
    (closing s) (emitted s).

Definition set_addresses (v : list string) (s : Ledger) : Ledger :=
  mkLedger (eth s) (devicePath s) (derivation s) (accountLimit s) (requestQueue s)
    (statusPoller s) (status s) v (timers s) (nextTimer s)
    (closing s) (emitted s).

Definition set_timers (v : gmap nat TimerCallback) (n : nat) (s : Ledger) : Ledger :=
  mkLedger (eth s) (devicePath s) (derivation s) (accountLimit s) (requestQueue s)
    (statusPoller s) (status s) (addresses s) v n
    (closing s) (emitted s).

Definition set_closing (v : nat) (s : Ledger) : Ledger :=
  mkLedger (eth s) (devicePath s) (derivation s) (accountLimit s) (requestQueue s)
    (statusPoller s) (status s) (addresses s) (timers s) (nextTimer s)
    v (emitted s).

(** [this.emit(event)] *)
Definition emit (event : string) (s : Ledger) : Ledger :=
  mkLedger (eth s) (devicePath s) (derivation s) (accountLimit s) (requestQueue s)
    (statusPoller s) (status s) (addresses s) (timers s) (nextTimer s)
    (closing s) (emitted s ++ [event]).

(** [setTimeout(cb, ...)]: schedules [cb] under a handle no earlier call
    returned. *)
Definition setTimeout (cb : TimerCallback) (s : Ledger) : nat * Ledger :=
  (nextTimer s, set_timers (<[nextTimer s := cb]> (timers s)) (S (nextTimer s)) s).

(** [clearTimeout(h)] and [clearInterval(h)], which Node treats alike. *)
Definition clearTimeout (h : nat) (s : Ledger) : Ledger :=
  set_timers (delete h (timers s)) (nextTimer s) s.

(** Field initialisers and [constructor (devicePath)]. *)
Definition new_Ledger (path : string) : Ledger :=
  mkLedger None path None 5%nat RequestQueue.empty
    0%nat STATUS.INITIAL [] {[ 0%nat := NoOp ]} 1%nat 0%nat [].

(** [open()], once [TransportNodeHid.open] has resolved. *)
Definition open (s : Ledger) : Ledger :=
  set_requestQueue (RequestQueue.start (requestQueue s))
    (set_eth (Some (mkApp (devicePath s))) s).

(** The tail of [close()]: [emit('close')]; [removeAllListeners()] and the
    base class's [close()] act on nothing kept here. *)
Definition close_finish (s : Ledger) : Ledger := emit "close" s.

(** [close()] as far as it runs when called: up to
    [await this.eth.close()] if there is an app, to the end otherwise. *)
Definition close (s : Ledger) : Ledger :=
  let s := set_requestQueue (RequestQueue.close (requestQueue s)) s in
  let s := clearTimeout (statusPoller s) s in
  match eth s with
  | Some _ => set_closing (S (closing s)) s
  | None => close_finish s
  end.

(** [close()] from the point where [this.eth.close()] has resolved. *)
Definition close_resume (s : Ledger) : Ledger :=
  close_finish (set_eth None (set_closing (Nat.pred (closing s)) s)).

(** [enqueueRequests(...requests)] *)
Definition enqueueRequests (requests : list Request) (s : Ledger) : Ledger :=
  set_requestQueue
    (fold_left (fun q req => RequestQueue.add req q) requests (requestQueue s)) s.

(** [pollDeviceStatus(frequency)]: the method is [async] but awaits nothing. *)
Definition pollDeviceStatus (frequency : Z) (s : Ledger) : Ledger :=
  let lastStatus := status s in
  let hs := setTimeout (PollTick frequency lastStatus) s in
  set_statusPoller (fst hs) (snd hs).

Definition updateStatus (st : string) (s : Ledger) : Ledger :=
  let s := set_status st s in
  let s := if String.eqb (status s) STATUS.OK
           then pollDeviceStatus 5000 (clearTimeout (statusPoller s) s) else s in
  let s := if String.eqb (status s) STATUS.LOCKED
           then pollDeviceStatus 500 (clearTimeout (statusPoller s) s) else s in
  s.

Definition isReady (s : Ledger) : bool :=
  existsb (String.eqb (status s)) [STATUS.INITIAL; STATUS.OK].

Definition handleError (err : DeviceError) (s : Ledger) : Ledger :=
  if isDeviceAsleep err && negb (String.eqb (status s) STATUS.LOCKED) then
    emit "lock" (updateStatus STATUS.LOCKED s)
  else
    let errorStatus := getStatusForError err in
    if negb (String.eqb errorStatus (status s)) then
      let s := emit "update" (updateStatus errorStatus s) in
      if String.eqb (status s) STATUS.NEEDS_RECONNECTION then close s else s
    else s.

(** A thrown [new Error(msg)]: it has no [statusCode]. *)
Definition Error (msg : string) : DeviceError := mkDeviceError None msg.

(** ** Liveness probe *)

(** [v || d] on a status code: [undefined] and [0] are falsy. *)
Definition orElse (v : option Z) (d : Z) : Z :=
  match v with
  | Some c => if c =? 0 then d else c
  | None => d
  end.

(** The [async] executor of [checkDeviceStatus] without its timer:
    [try { await this.eth?.getAddress(..); resolve(0) } catch (e) { resolve(e.statusCode || -1) }].
    With no app, [this.eth?.getAddress(..)] is [undefined] and the [await]
    completes at once. *)
Definition probe (a : Answer Address) (s : Ledger) : Answer Z :=
  match eth s with
  | None => Within 0 (Resolved 0)
  | Some _ =>
      match a with
      | Within ms (Resolved _) => Within ms (Resolved 0)
      | Within ms (Rejected e) => Within ms (Resolved (orElse (statusCode e) (-1)))
      | Never => Never
      end
  end.

(** The promise [check]: the executor raced against
    [setTimeout(() => resolve(-1), 3000)]. *)
Definition check (a : Answer Address) (s : Ledger) : option (Settlement Z) :=
  race (Some (3000, Resolved (-1))) (probe a s).

(** The callback given to [check.then]; it returns [statusCode]. *)
Definition checkDeviceStatus_then (code : Z) (s : Ledger) : Z * Ledger :=
  if code =? 0 then
    if String.eqb (status s) STATUS.LOCKED then
      (code, emit "unlock" (updateStatus STATUS.OK (clearTimeout (statusPoller s) s)))
    else (code, s)
  else (code, handleError (errorOfCode code) s).

(** [promise.then(f)] for a callback that acts on the session. *)
Definition then_ {A B} (p : option (Settlement A)) (f : A -> Ledger -> B * Ledger)
    (s : Ledger) : option (Settlement B) * Ledger :=
  match p with
  | Some (Resolved a) => let r := f a s in (Some (Resolved (fst r)), snd r)
  | Some (Rejected e) => (Some (Rejected e), s)
  | None => (None, s)
  end.

(** [checkDeviceStatus()], the device answering its probe with [a]; the
    session is not touched between the call and the [then] callback. *)
Definition checkDeviceStatus (a : Answer Address) (s : Ledger)
    : option (Settlement Z) * Ledger :=
  then_ (check a s) checkDeviceStatus_then s.

(** The fixed path probed by [checkDeviceStatus]. *)
Definition probePath : string := "44'/60'/0'/0".

(** ** The status poller's timer *)

(** The callback of the timer set by [pollDeviceStatus(frequency)]. *)
Definition pollTick (frequency : Z) (lastStatus : string) (s : Ledger) : Ledger :=
  let lastRequest := RequestQueue.peekBack (requestQueue s) in
  let s :=
    match lastRequest with
    | Some r =>
        if negb (String.eqb (type r) "checkDeviceStatus")
        then enqueueRequests [CheckDeviceStatusRequest lastStatus] s else s
    | None => enqueueRequests [CheckDeviceStatusRequest lastStatus] s
    end in
  pollDeviceStatus frequency s.

(** The runtime fires the timer with handle [h], if it is still scheduled. *)
Definition fireTimer (h : nat) (s : Ledger) : Ledger :=
  match timers s !! h with
  | None => s
  | Some cb =>
      let s := set_timers (delete h (timers s)) (nextTimer s) s in
      match cb with
      | NoOp => s
      | PollTick frequency lastStatus => pollTick frequency lastStatus s
      end
  end.

(** ** Address derivation *)

Definition option_Derivation_eqb (a b : option Derivation) : bool :=
  match a, b with
  | Some x, Some y => Derivation_eqb x y
  | None, None => true
  | _, _ => false
  end.

Definition deriveLiveAddresses (s : Ledger) : Ledger :=
  let requests := map DeriveLiveRequest (seq 0 (accountLimit s)) in
  enqueueRequests requests s.

Definition deriveHardwareAddresses (s : Ledger) : Ledger :=
  let targetDerivation := derivation s in
  enqueueRequests [DeriveHardwareRequest targetDerivation] s.

Definition deriveAddresses (s : Ledger) : Ledger :=
  let s := set_requestQueue (RequestQueue.clear (requestQueue s)) s in
  let s := set_addresses [] s in
  let s := emit "update" (updateStatus STATUS.DERIVING s) in
  if option_Derivation_eqb (derivation s) (Some live)
  then deriveLiveAddresses s
  else deriveHardwareAddresses s.

(** [execute] of a per-index request up to its [await]: either the body is
    over ([inl], a [throw] caught by its own [catch]) or it is suspended on
    [this.eth.getAddress(path, false, false)] ([inr path]). *)
Definition deriveLive_begin (i : nat) (s : Ledger) : Ledger + string :=
  match eth s with
  | None =>
      inl (handleError (Error "attempted to derive addresses but Eth app is not connected!") s)
  | Some _ =>
      match derivation s with
      | None =>
          inl (handleError (Error "attempted to derive addresses for unknown derivation!") s)
      | Some d => inr (getPath d i)
      end
  end.

(** The same [execute] from the point where the device call has settled. *)
Definition deriveLive_resume (x : Settlement Address) (s : Ledger) : Ledger :=
  match x with
  | Resolved a =>
      if option_Derivation_eqb (derivation s) (Some live) then
        let s := if String.eqb (status s) STATUS.DERIVING
                 then updateStatus STATUS.OK s else s in
        let s := set_addresses (addresses s ++ [address a]) s in
        emit "update" s
      else s
  | Rejected e => handleError e s
  end.

(** [execute] of the bulk request up to its [await]: over ([inl]) or
    suspended on [this.eth.deriveAddresses(d)] ([inr d]). *)
Definition deriveHardware_begin (s : Ledger) : Ledger + Derivation :=
  match eth s with
  | None =>
      inl (handleError (Error "attempted to derive addresses but Eth app is not connected!") s)
  | Some _ =>
      match derivation s with
      | None =>
          inl (handleError (Error "attempted to derive addresses for unknown derivation!") s)
      | Some d => inr d
      end
  end.

Definition deriveHardware_resume (targetDerivation : option Derivation)
    (x : Settlement (list string)) (s : Ledger) : Ledger :=
  match x with
  | Resolved addrs =>
      if option_Derivation_eqb (derivation s) targetDerivation then
        let s := if String.eqb (status s) STATUS.DERIVING
                 then updateStatus STATUS.OK s else s in
        let s := set_addresses addrs s in
        emit "update" s
      else s
  | Rejected e => handleError e s
  end.

(** ** Guarded device access *)

(** [this.getAddress(path, display, chainCode)], the device answering with
    [a]: no app rejects at once; otherwise the device call is raced against
    a 3000 ms timer unless [display] is set. *)
Definition getAddress (a : Answer Address) (display : bool) (s : Ledger)
    : option (Settlement Address) :=
  match eth s with
  | None => Some (Rejected (Error "tried to get address but Eth app is not connected!"))
  | Some _ =>
      race (if negb display
            then Some (3000, Rejected (mkDeviceError (Some (-1)) "getAddress timed out"))
            else None) a
  end.

(** What the 1000 ms timer of [getAppConfiguration] rejects with; it reads
    [this.status] when it fires. *)
Definition getAppConfiguration_timeout (s : Ledger) : DeviceError :=
  let statusCode := if String.eqb (status s) STATUS.INITIAL then 27904 else -1 in
  mkDeviceError (Some statusCode) "getAppConfiguration timed out".

(** [this.getAppConfiguration()], the device answering with [a]; the status
    is the same when the timer fires as when the call was made. *)
Definition getAppConfiguration (a : Answer AppConfiguration) (s : Ledger)
    : option (Settlement AppConfiguration) :=
  match eth s with
  | None =>
      Some (Rejected (Error "tried to get app configuration but Eth app is not connected!"))
  | Some _ => race (Some (1000, Rejected (getAppConfiguration_timeout s))) a
  end.

(** ** Address verification *)

(** [execute] of a verification request up to its [await]: the two
    [throw]s before the [try] reject the promise of [execute] ([inl msg]);
    otherwise the body is suspended on [this.getAddress(path, display, true)]
    ([inr path]). *)
Definition verifyAddress_begin (index : nat) (s : Ledger) : string + string :=
  match eth s with
  | None => inl "attempted to verify address but Eth app is not connected!"
  | Some app =>
      match derivation s with
      | None => inl "attempted to verify address for unknown derivation!"
      | Some d => inr (getPath d index)
      end
  end.

(** What one [execute] did once its promise has settled: the session
    afterwards, the calls it made to a caller's callback, oldest first, and
    the error message if the promise rejected. *)
Record Ran := mkRan {
  after : Ledger;
  callbacks : list CallbackCall;
  threw : option string
}.

(** The [catch] block of a verification request, entered with the caught
    [err] after the callback was invoked with [calls]: the error path, then
    the callback with the descriptive error.  If the callback throws here
    nothing catches it, and the promise of [execute] rejects. *)
Definition verifyAddress_catch (cb : Callback) (calls : list CallbackCall)
    (err : DeviceError) (s : Ledger) : Ran :=
  let s := handleError err s in
  let call := mkCall (Some ("verify address error: " ++ message err)%string) None in
  mkRan s (calls ++ [call]) (option_map message (cb call)).

(** The same [execute] once [this.getAddress] has settled with [x].  Both
    invocations of the callback on a device answer sit inside the [try], so
    a callback that throws lands in the [catch] block and is invoked
    again. *)
Definition verifyAddress_resume (currentAddress : string) (cb : Callback)
    (x : Settlement Address) (s : Ledger) : Ran :=
  match x with
  | Resolved result =>
      if negb (String.eqb (toLowerCase (address result)) (toLowerCase currentAddress)) then
        let s := handleError (errorOfCode (-1)) s in
        let call := mkCall (Some "Address does not match device") None in
        match cb call with
        | None => mkRan s [call] None
        | Some e => verifyAddress_catch cb [call] e s
        end
      else
        let call := mkCall None (Some true) in
        match cb call with
        | None => mkRan s [call] None
        | Some e => verifyAddress_catch cb [call] e s
        end
  | Rejected err => verifyAddress_catch cb [] err s
  end.

(** ** Running requests *)

(** [request.execute()] against the device [dev], with nothing else acting
    on the session while the request is suspended.  [None]: the promise
    never settles. *)
Definition execute (dev : Device) (r : Request) (s : Ledger) : option Ran :=
  match r with
  | CheckDeviceStatusRequest lastStatus =>
      if negb (String.eqb lastStatus (status s)) then Some (mkRan s [] None)
      else
        match checkDeviceStatus (dev_getAddress dev probePath false false) s with
        | (Some (Resolved _), s') => Some (mkRan s' [] None)
        | (Some (Rejected e), s') => Some (mkRan s' [] (Some (message e)))
        | (None, _) => None
        end
  | DeriveLiveRequest i =>
      match deriveLive_begin i s with
      | inl s' => Some (mkRan s' [] None)
      | inr path =>
          match race None (dev_getAddress dev path false false) with
          | Some x => Some (mkRan (deriveLive_resume x s) [] None)
          | None => None
          end
      end
  | DeriveHardwareRequest targetDerivation =>
      match deriveHardware_begin s with
      | inl s' => Some (mkRan s' [] None)
      | inr d =>
          match race None (dev_deriveAddresses dev d) with
          | Some x => Some (mkRan (deriveHardware_resume targetDerivation x s) [] None)
          | None => None
          end
      end
  | VerifyAddressRequest index currentAddress display cb =>
      match verifyAddress_begin index s with
      | inl msg => Some (mkRan s [] (Some msg))
      | inr path =>
          match getAddress (dev_getAddress dev path display true) display s with
          | Some x => Some (verifyAddress_resume currentAddress cb x s)
          | None => None
          end
      end
  end.

(** [verifyAddress(index, currentAddress, display, cb)] only enqueues. *)
Definition verifyAddress (index : nat) (currentAddress : string) (display : bool)
    (cb : Callback) (s : Ledger) : Ledger :=
  enqueueRequests [VerifyAddressRequest index currentAddress display cb] s.

(** The queue takes its head request, which becomes the current one. *)
Definition beginNext (s : Ledger) : option (Request * Ledger) :=
  match RequestQueue.next (requestQueue s) with
  | Some (r, q) => Some (r, set_requestQueue q s)
  | None => None
  end.

(** The queue begins its next request and the request runs until its
    promise settles.  [None]: the queue has nothing to begin, or the request
    never settles. *)
Definition runNext (dev : Device) (s : Ledger) : option Ledger :=
  match beginNext s with
  | None => None
  | Some (r, s) =>
      match execute dev r s with
      | None => None
      | Some ran =>
          Some (set_requestQueue (RequestQueue.settle (requestQueue (after ran))) (after ran))
      end
  end.

(** At most [fuel] requests are run, one after the other. *)
Fixpoint drain (dev : Device) (fuel : nat) (s : Ledger) : Ledger :=
  match fuel with
  | O => s
  | S n =>
      match runNext dev s with
      | None => s
      | Some s' => drain dev n s'
      end
  end.

(** The queue works through what is pending: no request adds another one,
    so as many steps as there are pending requests are enough. *)
Definition run (dev : Device) (s : Ledger) : Ledger :=
  drain dev (length (RequestQueue.pending (requestQueue s))) s.

(** The runtime fires the timers with handles [hs], one after the other. *)
Definition fireTimers (hs : list nat) (s : Ledger) : Ledger :=
  fold_left (fun acc h => fireTimer h acc) hs s.

(** [request.execute()] against the device [dev] when the timers [hs] fire
    while the request is suspended at its [await].  What runs before the
    [await] sees the session as it is; what runs after it sees the session
    the timers left.  A body that ends before any [await] leaves the timers
    to fire later. *)
Definition executeAmid (dev : Device) (r : Request) (hs : list nat) (s : Ledger)
    : option Ran :=
  match r with
  | CheckDeviceStatusRequest lastStatus =>
      if negb (String.eqb lastStatus (status s)) then Some (mkRan s [] None)
      else
        match then_ (check (dev_getAddress dev probePath false false) s)
                checkDeviceStatus_then (fireTimers hs s) with
        | (Some (Resolved _), s') => Some (mkRan s' [] None)
        | (Some (Rejected e), s') => Some (mkRan s' [] (Some (message e)))
        | (None, _) => None
        end
  | DeriveLiveRequest i =>
      match deriveLive_begin i s with
      | inl s' => Some (mkRan s' [] None)
      | inr path =>
          match race None (dev_getAddress dev path false false) with
          | Some x => Some (mkRan (deriveLive_resume x (fireTimers hs s)) [] None)
          | None => None
          end
      end
  | DeriveHardwareRequest targetDerivation =>
      match deriveHardware_begin s with
      | inl s' => Some (mkRan s' [] None)
      | inr d =>
          match race None (dev_deriveAddresses dev d) with
          | Some x =>
              Some (mkRan (deriveHardware_resume targetDerivation x (fireTimers hs s)) [] None)
          | None => None
          end
      end
  | VerifyAddressRequest index currentAddress display cb =>
      match verifyAddress_begin index s with
      | inl msg => Some (mkRan s [] (Some msg))
      | inr path =>
          match getAddress (dev_getAddress dev path display true) display s with
          | Some x => Some (verifyAddress_resume currentAddress cb x (fireTimers hs s))
          | None => None
          end
      end
  end.

(** The queue begins its next request, the timers [hs] fire while it is
    suspended, and it runs until its promise settles. *)
Definition runNextAmid (dev : Device) (hs : list nat) (s : Ledger) : option Ledger :=
  match beginNext s with
  | None => None
  | Some (r, s) =>
      match executeAmid dev r hs s with
      | None => None
      | Some ran =>
          Some (set_requestQueue (RequestQueue.settle (requestQueue (after ran))) (after ran))
      end
  end.

(** ** Connecting *)

(** The [catch] block of [connect()]. *)
Definition connect_catch (err : DeviceError) (s : Ledger) : Ledger :=
  let s := handleError err s in
  if negb (String.eqb (status s) STATUS.LOCKED) then close s else s.

(** [connect()] against the device [dev]; the parsed version is stored in
    [appVersion], which has no field here.  [inr] marks a run that ended in
    the [catch] block. *)
Definition connect (dev : Device) (s : Ledger) : Ledger + Ledger :=
  let s := emit "update" (updateStatus STATUS.INITIAL s) in
  match getAppConfiguration (dev_getAppConfiguration dev) s with
  | None => inl s
  | Some (Rejected err) => inr (connect_catch err s)
  | Some (Resolved config) =>
      match checkDeviceStatus (dev_getAddress dev probePath false false) s with
      | (Some (Resolved _), s) => inl (if isReady s then deriveAddresses s else s)
      | (Some (Rejected err), s) => inr (connect_catch err s)
      | (None, s) => inl s
      end
  end.

(** ** Observations used in the statements *)

(** How often [event] was emitted. *)
Definition countEvent (event : string) (s : Ledger) : nat :=
  count_occ string_dec (emitted s) event.

(** The frequency of the poller tick scheduled under [statusPoller], if one
    is scheduled. *)
Definition activePoller (s : Ledger) : option Z :=
  match timers s !! statusPoller s with
  | Some (PollTick frequency _) => Some frequency
  | _ => None
  end.

(** [close()] ran between [before] and [after]: each call either suspends at
    the transport ([closing] grows) or emits ['close']. *)
Definition closeCalled (before after : Ledger) : bool :=
  (closing before <? closing after)%nat || (countEvent "close" before <? countEvent "close" after)%nat.

(** [handleError] applied to a sequence of errors, first to last. *)
Definition handleErrors (errs : list DeviceError) (s : Ledger) : Ledger :=
  fold_left (fun acc err => handleError err acc) errs s.

(** How many of these calls took the status from another one to [LOCKED]. *)
Fixpoint lockEntries (errs : list DeviceError) (s : Ledger) : nat :=
  match errs with
  | [] => 0%nat
  | err :: rest =>
      ((if negb (String.eqb (status s) STATUS.LOCKED)
            && String.eqb (status (handleError err s)) STATUS.LOCKED
        then 1 else 0) + lockEntries rest (handleError err s))%nat
  end.

(** The handle in [statusPoller] came from an earlier [setTimeout]. *)
Definition pollerAllocated (s : Ledger) : Prop :=
  (statusPoller s < nextTimer s)%nat.

(** A device for per-index derivation: the call for the path of index [i]
    settles with [answers i]; other paths are never answered. *)
Definition liveDevice (limit : nat) (answers : nat -> Settlement Address) : Device :=
  mkDevice
    (fun path _ _ =>
       match List.find (fun i => String.eqb path (getPath live i)) (seq 0 limit) with
       | Some i => Within 0 (answers i)
       | None => Never
       end)
    (fun _ => Never)
    Never.

(** Modelled from the spec: "derivationEpoch (monotonic counter incremented
    every time derivation target changes)", "increments every time
    deriveAddresses() is invoked".  The class keeps no such counter; here it
    is carried next to the session and counts the calls of
    [deriveAddresses]. *)
Definition triggerDerivation (es : nat * Ledger) : nat * Ledger :=
  (S (fst es), deriveAddresses (snd es)).

(** The contract of a [Callback] invocation: an error and no result, or no
    error and a boolean. *)
Definition callbackContract (c : CallbackCall) : Prop :=
  (cb_err c <> None /\ cb_result c = None) \/
  (cb_err c = None /\ exists b, cb_result c = Some b).

(** Five per-index answers of which the one for index 2 is a failure. *)
Definition failingAt2 (a0 a1 a3 a4 : Address) (e : DeviceError)
    (i : nat) : Settlement Address :=
  match i with
  | 0%nat => Resolved a0
  | 1%nat => Resolved a1
  | 2%nat => Rejected e
  | 3%nat => Resolved a3
  | _ => Resolved a4
  end.

(** A session with its app open and per-index derivation selected; the
    derivation is assigned from outside the class. *)
Definition liveSession : Ledger :=
  set_derivation (Some live) (open (new_Ledger "usb")).

(** Derivation is triggered on [liveSession] and the queue begins the
    request for index 0 ([inFlight]).  While that request waits for the
    device, the derivation is changed to [legacy] and derivation is triggered
    again, then it is changed back to [live] and derivation is triggered a
    third time. *)
Definition firstTrigger : nat * Ledger := triggerDerivation (0%nat, liveSession).

Definition inFlight : Ledger :=
  match beginNext (snd firstTrigger) with
  | Some (_, s) => s
  | None => snd firstTrigger
  end.

Definition secondTrigger : nat * Ledger :=
  triggerDerivation (fst firstTrigger, set_derivation (Some legacy) inFlight).

Definition thirdTrigger : nat * Ledger :=
  triggerDerivation (fst secondTrigger, set_derivation (Some live) (snd secondTrigger)).

(** No method run by a request adds to the queue: the queue is left as it
    was, or closed. *)
Definition keptOrClosed (q q' : RequestQueue.t) : Prop :=
  q' = q \/ q' = RequestQueue.close q.

(** A device that answers every address call after 20 ms with the given
    address and never answers anything else. *)
Definition answering (addr : string) : Device :=
  mkDevice (fun _ _ _ => Within 20 (Resolved (mkAddress addr "" None)))
           (fun _ => Never) Never.

(** A device that answers nothing. *)
Definition silent : Device := mkDevice (fun _ _ _ => Never) (fun _ => Never) Never.

(** ** eth.ts: hex normalisation *)

(** [hex.substring(n)] *)
Fixpoint substringFrom (n : nat) (s : string) : string :=
  match n, s with
  | O, _ => s
  | S n', String _ rest => substringFrom n' rest
  | S _, EmptyString => EmptyString
  end.

(** [LedgerEthereumApp.normalize(hex)]; [None] stands for [null] and
    [undefined], which [hex == null] both catches. *)
Definition normalize (hex : option string) : string :=
  match hex with
  | None => ""
  | Some hex =>
      let hex := if String.prefix "0x" hex then substringFrom 2 hex else hex in
      let hex := if negb (Nat.eqb (Nat.modulo (String.length hex) 2) 0)
                 then ("0" ++ hex)%string else hex in
      hex
  end.

(** ** Further observations *)

(** Every poller tick that is scheduled is the one [statusPoller] holds. *)
Definition singlePoller (s : Ledger) : Prop :=
  forall h f l, timers s !! h = Some (PollTick f l) -> h = statusPoller s.


(** The runtime fires the session's poller timer [n] times in a row, the
    queue beginning nothing in between. *)
Fixpoint ticks (n : nat) (s : Ledger) : Ledger :=
  match n with
  | O => s
  | S n' => ticks n' (fireTimer (statusPoller s) s)
  end.

(** The request at the tail of the queue is a liveness probe. *)
Definition tailIsProbe (s : Ledger) : bool :=
  match RequestQueue.peekBack (requestQueue s) with
  | Some r => String.eqb (type r) "checkDeviceStatus"
  | None => false
  end.

(** The device calls of per-index requests complete successfully with
    [results], in that order. *)
Definition completions (results : list Address) (s : Ledger) : Ledger :=
  fold_left (fun acc a => deriveLive_resume (Resolved a) acc) results s.

(** A string of decimal digits. *)
Fixpoint allDigits (s : string) : bool :=
  match s with
  | EmptyString => true
  | String c rest =>
      (Nat.leb 48 (nat_of_ascii c) && Nat.leb (nat_of_ascii c) 57 && allDigits rest)%bool
  end.

(** ** Equality up to case *)

(** The upper-case letters of the Latin-1 range by their code: 'A'..'Z',
    and U+00C0..U+00DE without the multiplication sign. *)
Definition upperLetter (n : nat) : Prop :=
  (65 <= n <= 90)%nat \/ ((192 <= n <= 222)%nat /\ n <> 215%nat).

(** [y] is the lower-case form of the upper-case letter [x]. *)
Definition lowerOf (x y : nat) : Prop := upperLetter x /\ y = (x + 32)%nat.

(** Two code units are the same letter up to case: they are equal, or one
    is the lower-case form of the other. *)
Definition sameLetter (a b : ascii) : Prop :=
  a = b \/ lowerOf (nat_of_ascii a) (nat_of_ascii b)
        \/ lowerOf (nat_of_ascii b) (nat_of_ascii a).

(** Two strings are the same up to the case of their letters. *)
Fixpoint sameUpToCase (a b : string) : Prop :=
  match a, b with
  | EmptyString, EmptyString => True
  | String x a', String y b' => sameLetter x y /\ sameUpToCase a' b'
  | _, _ => False
  end.

(** * Properties *)

(** ** Projections through the methods *)

Lemma status_emit ev s : status (emit ev s) = status s.
Proof. reflexivity. Qed.

Lemma emitted_emit ev s : emitted (emit ev s) = emitted s ++ [ev].
Proof. reflexivity. Qed.

Lemma status_updateStatus st s : status (updateStatus st s) = st.
Proof.
  unfold updateStatus; cbn.
  destruct (String.eqb st STATUS.OK) eqn:Hok; cbn.
  - apply String.eqb_eq in Hok; subst st; reflexivity.
  - destruct (String.eqb st STATUS.LOCKED); reflexivity.
Qed.

Lemma emitted_updateStatus st s : emitted (updateStatus st s) = emitted s.
Proof.
  unfold updateStatus; cbn.
  destruct (String.eqb st STATUS.OK) eqn:Hok; cbn.
  - apply String.eqb_eq in Hok; subst st; reflexivity.
  - destruct (String.eqb st STATUS.LOCKED); reflexivity.
Qed.

Lemma addresses_updateStatus st s : addresses (updateStatus st s) = addresses s.
Proof.
  unfold updateStatus; cbn.
  destruct (String.eqb st STATUS.OK) eqn:Hok; cbn.
  - apply String.eqb_eq in Hok; subst st; reflexivity.
  - destruct (String.eqb st STATUS.LOCKED); reflexivity.
Qed.

Lemma closing_updateStatus st s : closing (updateStatus st s) = closing s.
Proof.
  unfold updateStatus; cbn.
  destruct (String.eqb st STATUS.OK) eqn:Hok; cbn.
  - apply String.eqb_eq in Hok; subst st; reflexivity.
  - destruct (String.eqb st STATUS.LOCKED); reflexivity.
Qed.

Lemma updateStatus_other st s :
  st <> STATUS.OK -> st <> STATUS.LOCKED -> updateStatus st s = set_status st s.
Proof.
  intros Hok Hlocked. unfold updateStatus; cbn.
  apply String.eqb_neq in Hok, Hlocked. rewrite Hok; cbn. rewrite Hlocked. reflexivity.
Qed.

Lemma status_close s : status (close s) = status s.
Proof. unfold close; cbn. destruct (eth s); reflexivity. Qed.

Lemma addresses_close s : addresses (close s) = addresses s.
Proof. unfold close; cbn. destruct (eth s); reflexivity. Qed.

Lemma emitted_close s :
  emitted (close s) = emitted s ++ match eth s with Some _ => [] | None => ["close"] end.
Proof. unfold close; cbn. destruct (eth s); cbn; [now rewrite app_nil_r | reflexivity]. Qed.

Lemma closing_close s :
  closing (close s) = match eth s with Some _ => S (closing s) | None => closing s end.
Proof. unfold close; cbn. destruct (eth s); reflexivity. Qed.

(** ** The classifier and the error path, case by case *)

Lemma asleep_code err : isDeviceAsleep err = true <-> statusCode err = Some 27404.
Proof.
  unfold isDeviceAsleep, includes. destruct (statusCode err) as [c|]; cbn.
  - rewrite orb_false_r, Z.eqb_eq. split; congruence.
  - split; discriminate.
Qed.

Lemma asleep_not_wrong_app err : isDeviceAsleep err = true -> needToOpenEthApp err = false.
Proof.
  intros H. apply asleep_code in H. unfold needToOpenEthApp. rewrite H. reflexivity.
Qed.

Lemma classify_asleep err : isDeviceAsleep err = true -> getStatusForError err = STATUS.LOCKED.
Proof.
  intros H. unfold getStatusForError. rewrite (asleep_not_wrong_app _ H), H. reflexivity.
Qed.

Lemma classify_range err :
  (needToOpenEthApp err = true /\ getStatusForError err = STATUS.WRONG_APP) \/
  (needToOpenEthApp err = false /\ isDeviceAsleep err = true
     /\ getStatusForError err = STATUS.LOCKED) \/
  (needToOpenEthApp err = false /\ isDeviceAsleep err = false
     /\ getStatusForError err = STATUS.NEEDS_RECONNECTION).
Proof.
  unfold getStatusForError.
  destruct (needToOpenEthApp err); [left; auto|].
  destruct (isDeviceAsleep err); right; [left | right]; auto.
Qed.

(** The four ways through [handleError]. *)
Lemma handleError_cases err s :
  (isDeviceAsleep err = true /\ status s <> STATUS.LOCKED
     /\ handleError err s = emit "lock" (updateStatus STATUS.LOCKED s)) \/
  (getStatusForError err = status s /\ handleError err s = s) \/
  (getStatusForError err = STATUS.WRONG_APP /\ status s <> STATUS.WRONG_APP
     /\ handleError err s = emit "update" (updateStatus STATUS.WRONG_APP s)) \/
  (getStatusForError err = STATUS.NEEDS_RECONNECTION
     /\ status s <> STATUS.NEEDS_RECONNECTION
     /\ handleError err s
        = close (emit "update" (updateStatus STATUS.NEEDS_RECONNECTION s))).
Proof.
  unfold handleError.
  destruct (String.eqb_spec (status s) STATUS.LOCKED) as [Hl|Hl]; cbn [negb].
  - rewrite andb_false_r.
    destruct (String.eqb_spec (getStatusForError err) (status s)) as [He|He]; cbn [negb].
    + right; left; auto.
    + destruct (classify_range err) as [[_ Hc]|[[_ [_ Hc]]|[_ [_ Hc]]]].
      * right; right; left. rewrite Hc.
        rewrite status_emit, status_updateStatus. cbn. rewrite Hl. repeat split; discriminate.
      * congruence.
      * right; right; right. rewrite Hc.
        rewrite status_emit, status_updateStatus. cbn. rewrite Hl. repeat split; discriminate.
  - rewrite andb_true_r.
    destruct (isDeviceAsleep err) eqn:Ha.
    + left; auto.
    + destruct (String.eqb_spec (getStatusForError err) (status s)) as [He|He]; cbn [negb].
      * right; left; auto.
      * destruct (classify_range err) as [[_ Hc]|[[_ [Hc _]]|[_ [_ Hc]]]].
        -- right; right; left. rewrite Hc in *.
           rewrite status_emit, status_updateStatus. cbn. repeat split; congruence.
        -- congruence.
        -- right; right; right. rewrite Hc in *.
           rewrite status_emit, status_updateStatus. cbn. repeat split; congruence.
Qed.

Lemma status_handleError err s : status (handleError err s) = getStatusForError err.
Proof.
  destruct (handleError_cases err s) as [[Ha [_ ->]]|[[Hc ->]|[[Hc [_ ->]]|[Hc [_ ->]]]]].
  - rewrite status_emit, status_updateStatus. symmetry. now apply classify_asleep.
  - congruence.
  - now rewrite status_emit, status_updateStatus.
  - now rewrite status_close, status_emit, status_updateStatus.
Qed.

Lemma addresses_handleError err s : addresses (handleError err s) = addresses s.
Proof.
  destruct (handleError_cases err s) as [[_ [_ ->]]|[[_ ->]|[[_ [_ ->]]|[_ [_ ->]]]]];
    try rewrite addresses_close; cbn; try apply addresses_updateStatus; reflexivity.
Qed.

(** ** Claim C2 *)

(** C2: the error classifier is a total function of the error code: code
    27404 (device asleep) maps to LOCKED; codes 27904, 27906, 25873 and 25871
    (Ethereum app not open) map to WRONG_APP; every other code, the synthetic
    timeout code -1 among them, maps to NEEDS_RECONNECTION, whatever the
    error's message. *)
Theorem getStatusForError_total (c : Z) (msg : string) :
  (c = 27404 -> getStatusForError (mkDeviceError (Some c) msg) = STATUS.LOCKED) /\
  (In c [27904; 27906; 25873; 25871] ->
     getStatusForError (mkDeviceError (Some c) msg) = STATUS.WRONG_APP) /\
  (c <> 27404 -> ~ In c [27904; 27906; 25873; 25871] ->
     getStatusForError (mkDeviceError (Some c) msg) = STATUS.NEEDS_RECONNECTION) /\
  (c = -1 -> getStatusForError (mkDeviceError (Some c) msg) = STATUS.NEEDS_RECONNECTION).
Proof.
  unfold getStatusForError, needToOpenEthApp, isDeviceAsleep, includes; cbn.
  repeat split.
  - intros ->. reflexivity.
  - intros [<-|[<-|[<-|[<-|[]]]]]; reflexivity.
  - intros Hne Hnin.
    destruct (Z.eqb_spec c 27904); [exfalso; apply Hnin; left; auto|].
    destruct (Z.eqb_spec c 27906); [exfalso; apply Hnin; right; left; auto|].
    destruct (Z.eqb_spec c 25873); [exfalso; apply Hnin; do 2 right; left; auto|].
    destruct (Z.eqb_spec c 25871); [exfalso; apply Hnin; do 3 right; left; auto|].
    destruct (Z.eqb_spec c 27404); [contradiction|]. reflexivity.
  - intros ->. reflexivity.
Qed.

Lemma getStatusForError_total_witness :
  getStatusForError (mkDeviceError (Some 27404) "") = STATUS.LOCKED /\
  getStatusForError (mkDeviceError (Some 25873) "") = STATUS.WRONG_APP /\
  getStatusForError (mkDeviceError (Some 26368) "") = STATUS.NEEDS_RECONNECTION /\
  getStatusForError (mkDeviceError (Some (-1)) "") = STATUS.NEEDS_RECONNECTION.
Proof.
  split; [|split; [|split]].
  - apply (proj1 (getStatusForError_total 27404 "")). reflexivity.
  - apply (proj1 (proj2 (getStatusForError_total 25873 ""))). cbn. lia.
  - apply (proj1 (proj2 (proj2 (getStatusForError_total 26368 "")))); cbn; lia.
  - apply (proj2 (proj2 (proj2 (getStatusForError_total (-1) "")))). reflexivity.
Defined.

(** ** Claim C3 *)

Lemma countEvent_emit ev ev' s :
  countEvent ev (emit ev' s)
  = (countEvent ev s + if string_dec ev' ev then 1 else 0)%nat.
Proof.
  unfold countEvent. rewrite emitted_emit, count_occ_app. cbn.
  destruct (string_dec ev' ev); reflexivity.
Qed.

Lemma countEvent_updateStatus ev st s : countEvent ev (updateStatus st s) = countEvent ev s.
Proof. unfold countEvent. now rewrite emitted_updateStatus. Qed.

Lemma countEvent_close ev s :
  countEvent ev (close s)
  = (countEvent ev s
     + match eth s with Some _ => 0 | None => if string_dec "close" ev then 1 else 0 end)%nat.
Proof.
  unfold countEvent. rewrite emitted_close, count_occ_app.
  destruct (eth s); cbn; [reflexivity|]. destruct (string_dec "close" ev); reflexivity.
Qed.

Lemma eth_emit ev s : eth (emit ev s) = eth s.
Proof. reflexivity. Qed.

Lemma eth_updateStatus st s : eth (updateStatus st s) = eth s.
Proof.
  unfold updateStatus; cbn.
  destruct (String.eqb st STATUS.OK) eqn:Hok; cbn.
  - apply String.eqb_eq in Hok; subst st; reflexivity.
  - destruct (String.eqb st STATUS.LOCKED); reflexivity.
Qed.

(** One call of [handleError] emits ['lock'] once if it takes the status
    into [LOCKED], and not at all otherwise. *)
Lemma handleError_lock_step err s :
  countEvent "lock" (handleError err s)
  = (countEvent "lock" s
     + if negb (String.eqb (status s) STATUS.LOCKED)
          && String.eqb (status (handleError err s)) STATUS.LOCKED
       then 1 else 0)%nat.
Proof.
  rewrite status_handleError.
  destruct (handleError_cases err s) as [[Ha [Hs ->]]|[[Hc ->]|[[Hc [_ ->]]|[Hc [_ ->]]]]].
  - rewrite countEvent_emit, countEvent_updateStatus, (classify_asleep _ Ha).
    apply String.eqb_neq in Hs. rewrite Hs. reflexivity.
  - rewrite Hc. destruct (String.eqb (status s) STATUS.LOCKED); cbn; lia.
  - rewrite countEvent_emit, countEvent_updateStatus, Hc, andb_false_r. reflexivity.
  - rewrite countEvent_close, countEvent_emit, countEvent_updateStatus, Hc, andb_false_r.
    destruct (eth _); cbn; lia.
Qed.

(** C3: over every sequence of errors given to [handleError], ['lock'] is
    emitted exactly once per entry into LOCKED: an asleep-mapped error met
    while the status is not LOCKED sets the status to LOCKED and emits
    ['lock'] (and nothing else); an asleep-mapped error met while already
    LOCKED leaves the session as it is, so no transition and no event. *)
Theorem handleError_lock_once_per_entry :
  (forall err s, isDeviceAsleep err = true -> status s <> STATUS.LOCKED ->
     status (handleError err s) = STATUS.LOCKED /\
     emitted (handleError err s) = emitted s ++ ["lock"]) /\
  (forall err s, isDeviceAsleep err = true -> status s = STATUS.LOCKED ->
     handleError err s = s) /\
  (forall errs s,
     countEvent "lock" (handleErrors errs s)
     = (countEvent "lock" s + lockEntries errs s)%nat).
Proof.
  split; [|split].
  - intros err s Ha Hs. unfold handleError. rewrite Ha.
    apply String.eqb_neq in Hs. rewrite Hs. cbn [negb andb].
    now rewrite status_emit, status_updateStatus, emitted_emit, emitted_updateStatus.
  - intros err s Ha Hs. unfold handleError. rewrite Ha, (classify_asleep _ Ha), Hs.
    reflexivity.
  - intros errs. induction errs as [|err rest IH]; intros s.
    + cbn. lia.
    + cbn [handleErrors fold_left lockEntries].
      change (fold_left _ rest (handleError err s))
        with (handleErrors rest (handleError err s)).
      rewrite IH, handleError_lock_step. lia.
Qed.

Lemma handleError_lock_once_per_entry_witness :
  status (handleError (errorOfCode 27404) (new_Ledger "usb")) = STATUS.LOCKED /\
  handleError (errorOfCode 27404) (handleError (errorOfCode 27404) (new_Ledger "usb"))
  = handleError (errorOfCode 27404) (new_Ledger "usb").
Proof.
  split.
  - apply (proj1 handleError_lock_once_per_entry); [reflexivity | discriminate].
  - apply (proj1 (proj2 handleError_lock_once_per_entry)); reflexivity.
Defined.

(** ** The poller's timer through [updateStatus] *)

Lemma updateStatus_OK s :
  updateStatus STATUS.OK s
  = set_statusPoller (nextTimer s)
      (set_timers (<[nextTimer s := PollTick 5000 STATUS.OK]> (delete (statusPoller s) (timers s)))
         (S (nextTimer s)) (set_status STATUS.OK s)).
Proof. reflexivity. Qed.

Lemma updateStatus_LOCKED s :
  updateStatus STATUS.LOCKED s
  = set_statusPoller (nextTimer s)
      (set_timers (<[nextTimer s := PollTick 500 STATUS.LOCKED]> (delete (statusPoller s) (timers s)))
         (S (nextTimer s)) (set_status STATUS.LOCKED s)).
Proof. reflexivity. Qed.

Lemma activePoller_rearmed f st (s : Ledger) (m : gmap nat TimerCallback) :
  activePoller
    (set_statusPoller (nextTimer s) (set_timers (<[nextTimer s := PollTick f st]> m)
       (S (nextTimer s)) (set_status st s)))
  = Some f.
Proof. unfold activePoller; cbn. now rewrite lookup_insert_eq. Qed.

Lemma pollerAllocated_updateStatus st s :
  pollerAllocated s -> pollerAllocated (updateStatus st s).
Proof.
  unfold pollerAllocated, updateStatus; cbn.
  destruct (String.eqb st STATUS.OK) eqn:Hok; cbn.
  - apply String.eqb_eq in Hok; subst st; cbn. lia.
  - destruct (String.eqb st STATUS.LOCKED); cbn; lia.
Qed.

(** ** Claim C4 *)

(** C4: when [checkDeviceStatus()] sees a success (code 0) while the status
    is LOCKED, the poller timer pending at that time is cancelled, the status
    becomes OK (which schedules the 5000 ms tick) and exactly one ['unlock']
    is emitted; on a success while the status is not LOCKED the session is
    left as it is: no transition, no event. *)
Theorem checkDeviceStatus_success (a : Answer Address) (s : Ledger) :
  pollerAllocated s ->
  check a s = Some (Resolved 0) ->
  fst (checkDeviceStatus a s) = Some (Resolved 0) /\
  (status s = STATUS.LOCKED ->
     status (snd (checkDeviceStatus a s)) = STATUS.OK /\
     timers (snd (checkDeviceStatus a s)) !! statusPoller s = None /\
     activePoller (snd (checkDeviceStatus a s)) = Some 5000 /\
     emitted (snd (checkDeviceStatus a s)) = emitted s ++ ["unlock"]) /\
  (status s <> STATUS.LOCKED -> snd (checkDeviceStatus a s) = s).
Proof.
  intros Halloc Hcheck. unfold checkDeviceStatus, then_. rewrite Hcheck.
  unfold checkDeviceStatus_then. cbn [Z.eqb fst snd].
  split; [|split].
  - destruct (String.eqb (status s) STATUS.LOCKED); reflexivity.
  - intros Hs. rewrite Hs. cbn [String.eqb fst snd].
    change (String.eqb STATUS.LOCKED STATUS.LOCKED) with true. cbn [fst snd].
    rewrite updateStatus_OK. cbn -[insert delete lookup].
    repeat split.
    + rewrite lookup_insert_ne by (unfold pollerAllocated in Halloc; lia).
      now rewrite lookup_delete_eq.
    + unfold activePoller; cbn -[insert delete lookup]. now rewrite lookup_insert_eq.
  - intros Hs. apply String.eqb_neq in Hs. rewrite Hs. reflexivity.
Qed.

Lemma checkDeviceStatus_success_witness :
  status (snd (checkDeviceStatus (Within 20 (Resolved (mkAddress "0xabcd" "" None)))
                 (updateStatus STATUS.LOCKED (open (new_Ledger "usb")))))
  = STATUS.OK.
Proof.
  apply (checkDeviceStatus_success (Within 20 (Resolved (mkAddress "0xabcd" "" None)))
           (updateStatus STATUS.LOCKED (open (new_Ledger "usb")))).
  - unfold pollerAllocated. cbn. lia.
  - reflexivity.
  - reflexivity.
Defined.

(** ** The tick of the poller *)

Lemma requestQueue_pollDeviceStatus f s :
  requestQueue (pollDeviceStatus f s) = requestQueue s.
Proof. reflexivity. Qed.

Lemma activePoller_pollDeviceStatus f s : activePoller (pollDeviceStatus f s) = Some f.
Proof. unfold activePoller, pollDeviceStatus; cbn. now rewrite lookup_insert_eq. Qed.

(** A tick re-arms the poller at the same frequency and leaves a probe at
    the tail of the queue. *)
Lemma fireTimer_tick h f l s :
  timers s !! h = Some (PollTick f l) ->
  activePoller (fireTimer h s) = Some f /\
  exists r, RequestQueue.peekBack (requestQueue (fireTimer h s)) = Some r
            /\ type r = "checkDeviceStatus".
Proof.
  intros Hh. unfold fireTimer. rewrite Hh. unfold pollTick.
  set (s0 := set_timers _ _ s).
  split.
  - apply activePoller_pollDeviceStatus.
  - rewrite requestQueue_pollDeviceStatus.
    destruct (RequestQueue.peekBack (requestQueue s0)) as [r|] eqn:Hback.
    + destruct (String.eqb_spec (type r) "checkDeviceStatus") as [Ht|Ht]; cbn [negb].
      * exists r. auto.
      * exists (CheckDeviceStatusRequest l). split; [|reflexivity].
        unfold enqueueRequests, RequestQueue.peekBack; cbn. apply last_snoc.
    + exists (CheckDeviceStatusRequest l). split; [|reflexivity].
      unfold enqueueRequests, RequestQueue.peekBack; cbn. apply last_snoc.
Qed.

(** ** Claim C6 *)

(** C6, as stated, fails for the third case: [updateStatus] of a status
    other than OK and LOCKED does not touch the poller.  A session that went
    to OK and is then set to DERIVING (as [deriveAddresses] does) still has
    its 5000 ms tick scheduled. *)
Lemma updateStatus_DERIVING_keeps_poller :
  status (updateStatus STATUS.DERIVING (updateStatus STATUS.OK (open (new_Ledger "usb"))))
  = STATUS.DERIVING /\
  activePoller (updateStatus STATUS.DERIVING (updateStatus STATUS.OK (open (new_Ledger "usb"))))
  = Some 5000.
Proof. split; vm_compute; reflexivity. Qed.

(** C6 (amended): [updateStatus(OK)] cancels the scheduled poller timer and
    schedules a tick every 5000 ms; [updateStatus(LOCKED)] does the same at
    500 ms; each tick leaves a probe at the tail of the queue and re-arms
    itself at the same frequency.  [updateStatus] of any other status only
    sets the status: the poller is left as it was, running or not. *)
Theorem updateStatus_poller (st : string) (s : Ledger) :
  pollerAllocated s ->
  status (updateStatus st s) = st /\
  (forall f, (st = STATUS.OK /\ f = 5000) \/ (st = STATUS.LOCKED /\ f = 500) ->
     timers (updateStatus st s) !! statusPoller s = None /\
     activePoller (updateStatus st s) = Some f /\
     activePoller (fireTimer (statusPoller (updateStatus st s)) (updateStatus st s)) = Some f /\
     exists r,
       RequestQueue.peekBack
         (requestQueue (fireTimer (statusPoller (updateStatus st s)) (updateStatus st s)))
       = Some r /\ type r = "checkDeviceStatus") /\
  (st <> STATUS.OK -> st <> STATUS.LOCKED ->
     updateStatus st s = set_status st s /\
     activePoller (updateStatus st s) = activePoller s).
Proof.
  intros Halloc. unfold pollerAllocated in Halloc.
  split; [apply status_updateStatus|]. split.
  - intros f Hf.
    assert (Hup : updateStatus st s
                  = set_statusPoller (nextTimer s)
                      (set_timers (<[nextTimer s := PollTick f st]>
                                     (delete (statusPoller s) (timers s)))
                         (S (nextTimer s)) (set_status st s))).
    { destruct Hf as [[-> ->]|[-> ->]]; reflexivity. }
    rewrite Hup.
    assert (Htick : timers (set_statusPoller (nextTimer s)
                      (set_timers (<[nextTimer s := PollTick f st]>
                                     (delete (statusPoller s) (timers s)))
                         (S (nextTimer s)) (set_status st s)))
                    !! nextTimer s = Some (PollTick f st)).
    { cbn -[insert delete lookup]. apply lookup_insert_eq. }
    split; [|split].
    + cbn -[insert delete lookup].
      rewrite lookup_insert_ne by lia. apply lookup_delete_eq.
    + apply activePoller_rearmed.
    + apply (fireTimer_tick _ _ _ _ Htick).
  - intros Hok Hlocked. rewrite (updateStatus_other _ _ Hok Hlocked). split; reflexivity.
Qed.

Lemma updateStatus_poller_witness :
  activePoller (updateStatus STATUS.LOCKED (open (new_Ledger "usb"))) = Some 500 /\
  updateStatus STATUS.WRONG_APP (open (new_Ledger "usb"))
  = set_status STATUS.WRONG_APP (open (new_Ledger "usb")).
Proof.
  assert (Halloc : pollerAllocated (open (new_Ledger "usb"))) by (unfold pollerAllocated; cbn; lia).
  split.
  - apply (proj1 (proj2 (updateStatus_poller STATUS.LOCKED _ Halloc)) 500).
    right. split; reflexivity.
  - apply (proj2 (proj2 (updateStatus_poller STATUS.WRONG_APP _ Halloc))); discriminate.
Defined.

(** ** Claim C7 *)

Lemma closeCalled_emit_updateStatus ev st s :
  ev <> "close" -> closeCalled s (emit ev (updateStatus st s)) = false.
Proof.
  intros Hev. unfold closeCalled.
  rewrite countEvent_emit, countEvent_updateStatus.
  change (closing (emit ev (updateStatus st s))) with (closing (updateStatus st s)).
  rewrite closing_updateStatus.
  destruct (string_dec ev "close"); [contradiction|].
  rewrite Nat.add_0_r, !Nat.ltb_irrefl. reflexivity.
Qed.

Lemma closeCalled_close_emit_updateStatus ev st s :
  closeCalled s (close (emit ev (updateStatus st s))) = true.
Proof.
  unfold closeCalled.
  rewrite closing_close, countEvent_close, countEvent_emit, countEvent_updateStatus.
  rewrite eth_emit, eth_updateStatus.
  change (closing (emit ev (updateStatus st s))) with (closing (updateStatus st s)).
  rewrite closing_updateStatus.
  destruct (eth s).
  - assert (H : (closing s <? S (closing s))%nat = true) by (apply Nat.ltb_lt; lia).
    rewrite H. reflexivity.
  - cbn [string_dec].
    assert (H : (countEvent "close" s
                 <? countEvent "close" s + (if string_dec ev "close" then 1 else 0)
                    + (if string_dec "close" "close" then 1 else 0))%nat = true).
    { apply Nat.ltb_lt. destruct (string_dec "close" "close"); [lia | contradiction]. }
    rewrite H. apply orb_true_r.
Qed.

(** C7, as stated, fails twice on one session that is OK with its app open:
    a wrong-app code takes it to WRONG_APP and emits ['update'], yet
    [close()] is not called and the queue keeps running; an asleep code takes
    it to LOCKED and emits ['lock'] alone, without ['update']. *)
Lemma handleError_WRONG_APP_not_closed :
  status (handleError (errorOfCode 27904) (updateStatus STATUS.OK (open (new_Ledger "usb"))))
  = STATUS.WRONG_APP /\
  closeCalled (updateStatus STATUS.OK (open (new_Ledger "usb")))
    (handleError (errorOfCode 27904) (updateStatus STATUS.OK (open (new_Ledger "usb"))))
  = false /\
  RequestQueue.running
    (requestQueue
       (handleError (errorOfCode 27904) (updateStatus STATUS.OK (open (new_Ledger "usb")))))
  = true /\
  emitted (handleError (errorOfCode 27404) (updateStatus STATUS.OK (open (new_Ledger "usb"))))
  = ["lock"].
Proof. repeat split; vm_compute; reflexivity. Qed.

(** C7 (amended): [handleError] leaves the session at the classified status.
    If that is the current status nothing happens.  Otherwise the status is
    updated and: on entering LOCKED only ['lock'] is emitted; on entering
    WRONG_APP ['update'] is emitted and the session stays open; on entering
    NEEDS_RECONNECTION ['update'] is emitted and [close()] is called.  In the
    failure path of [connect()] the session is closed as well whenever the
    status after [handleError] is not LOCKED. *)
Theorem handleError_transitions (err : DeviceError) (s : Ledger) :
  status (handleError err s) = getStatusForError err /\
  (getStatusForError err = status s -> handleError err s = s) /\
  (getStatusForError err <> status s ->
     (getStatusForError err = STATUS.LOCKED ->
        emitted (handleError err s) = emitted s ++ ["lock"] /\
        closeCalled s (handleError err s) = false) /\
     (getStatusForError err = STATUS.WRONG_APP ->
        emitted (handleError err s) = emitted s ++ ["update"] /\
        closeCalled s (handleError err s) = false) /\
     (getStatusForError err = STATUS.NEEDS_RECONNECTION ->
        handleError err s = close (emit "update" (updateStatus STATUS.NEEDS_RECONNECTION s)) /\
        closeCalled s (handleError err s) = true)) /\
  (status (handleError err s) <> STATUS.LOCKED ->
     connect_catch err s = close (handleError err s)).
Proof.
  split; [apply status_handleError|]. split; [|split].
  - intros Heq.
    destruct (handleError_cases err s) as [[Ha [Hs _]]|[[_ H]|[[Hc [Hs _]]|[Hc [Hs _]]]]];
      [ rewrite (classify_asleep _ Ha) in Heq | | | ]; congruence.
  - intros Hne.
    destruct (handleError_cases err s) as [[Ha [Hs H]]|[[Hc _]|[[Hc [Hs H]]|[Hc [Hs H]]]]].
    + pose proof (classify_asleep _ Ha) as Hc. rewrite H.
      split; [|split]; intros Hc'; try (rewrite Hc in Hc'; discriminate).
      split; [now rewrite emitted_emit, emitted_updateStatus|].
      apply closeCalled_emit_updateStatus. discriminate.
    + contradiction.
    + rewrite H.
      split; [|split]; intros Hc'; try (rewrite Hc in Hc'; discriminate).
      split; [now rewrite emitted_emit, emitted_updateStatus|].
      apply closeCalled_emit_updateStatus. discriminate.
    + rewrite H.
      split; [|split]; intros Hc'; try (rewrite Hc in Hc'; discriminate).
      split; [reflexivity | apply closeCalled_close_emit_updateStatus].
  - intros Hs. unfold connect_catch. apply String.eqb_neq in Hs. rewrite Hs. reflexivity.
Qed.

Lemma handleError_transitions_witness :
  handleError (errorOfCode (-1)) (open (new_Ledger "usb"))
  = close (emit "update" (updateStatus STATUS.NEEDS_RECONNECTION (open (new_Ledger "usb")))) /\
  connect_catch (errorOfCode 27904) (open (new_Ledger "usb"))
  = close (handleError (errorOfCode 27904) (open (new_Ledger "usb"))).
Proof.
  split.
  - apply (proj1 (proj2 (proj2 (handleError_transitions (errorOfCode (-1))
                                   (open (new_Ledger "usb")))))).
    + discriminate.
    + reflexivity.
  - apply (proj2 (proj2 (proj2 (handleError_transitions (errorOfCode 27904)
                                   (open (new_Ledger "usb")))))).
    discriminate.
Defined.

(** ** Claim C8 *)

(** The two [throw]s of a verification request sit before its [try]: with no
    app or no derivation the promise of [execute] rejects, the error path is
    not entered and the callback is not invoked. *)
Lemma verifyAddress_throws_before_try dev index currentAddress display cb s :
  eth s = None \/ derivation s = None ->
  exists msg,
    execute dev (VerifyAddressRequest index currentAddress display cb) s
    = Some (mkRan s [] (Some msg)).
Proof.
  intros H. unfold execute, verifyAddress_begin.
  destruct (eth s); [destruct (derivation s)|]; eauto.
  destruct H; discriminate.
Qed.

(** [toLowerCase] code unit by code unit, on the codes. *)
Lemma nat_of_lowerCodeUnit c :
  nat_of_ascii (lowerCodeUnit c)
  = if isUpperCase c then (nat_of_ascii c + 32)%nat else nat_of_ascii c.
Proof.
  unfold lowerCodeUnit. destruct (isUpperCase c) eqn:E; [|reflexivity].
  apply nat_ascii_embedding.
  unfold isUpperCase in E. cbv zeta in E.
  destruct (Nat.leb_spec 65 (nat_of_ascii c)), (Nat.leb_spec (nat_of_ascii c) 90),
    (Nat.leb_spec 192 (nat_of_ascii c)), (Nat.leb_spec (nat_of_ascii c) 222);
    cbn in E; try discriminate; lia.
Qed.

Lemma isUpperCase_upperLetter c :
  isUpperCase c = true <-> upperLetter (nat_of_ascii c).
Proof.
  unfold isUpperCase, upperLetter. cbv zeta.
  destruct (Nat.leb_spec 65 (nat_of_ascii c)), (Nat.leb_spec (nat_of_ascii c) 90),
    (Nat.leb_spec 192 (nat_of_ascii c)), (Nat.leb_spec (nat_of_ascii c) 222),
    (Nat.eqb_spec (nat_of_ascii c) 215); cbn; split; intros Hup;
    try discriminate; try reflexivity; try lia.
Qed.

Lemma nat_of_ascii_inj a b : nat_of_ascii a = nat_of_ascii b -> a = b.
Proof.
  intros H. rewrite <- (ascii_nat_embedding a), <- (ascii_nat_embedding b).
  now rewrite H.
Qed.

(** Two code units have the same lower-case form exactly when they are the
    same letter up to case. *)
Lemma lowerCodeUnit_sameLetter a b :
  lowerCodeUnit a = lowerCodeUnit b <-> sameLetter a b.
Proof.
  pose proof (nat_of_lowerCodeUnit a) as Ha.
  pose proof (nat_of_lowerCodeUnit b) as Hb.
  pose proof (isUpperCase_upperLetter a) as Ua.
  pose proof (isUpperCase_upperLetter b) as Ub.
  unfold sameLetter, lowerOf. split.
  - intros H. rewrite H in Ha. rewrite Ha in Hb. clear H Ha.
    destruct (isUpperCase a), (isUpperCase b).
    + left. apply nat_of_ascii_inj. lia.
    + right. left. split; [now apply Ua | lia].
    + right. right. split; [now apply Ub | lia].
    + left. now apply nat_of_ascii_inj.
  - intros H. apply nat_of_ascii_inj. rewrite Ha, Hb. clear Ha Hb.
    unfold upperLetter in *.
    destruct H as [->|[[Hu Hl]|[Hu Hl]]]; [reflexivity| |].
    + destruct (isUpperCase a); [|exfalso; apply Ua in Hu; discriminate].
      destruct (isUpperCase b); [|lia].
      exfalso. assert (Ht : true = true) by reflexivity. apply Ub in Ht. lia.
    + destruct (isUpperCase b); [|exfalso; apply Ub in Hu; discriminate].
      destruct (isUpperCase a); [|lia].
      exfalso. assert (Ht : true = true) by reflexivity. apply Ua in Ht. lia.
Qed.

(** Two strings have the same [toLowerCase] exactly when they are the same
    up to the case of their letters. *)
Lemma toLowerCase_sameUpToCase a :
  forall b, toLowerCase a = toLowerCase b <-> sameUpToCase a b.
Proof.
  induction a as [|x a IH]; intros [|y b]; cbn [toLowerCase sameUpToCase].
  - split; auto.
  - split; [discriminate|tauto].
  - split; [discriminate|tauto].
  - rewrite <- IH, <- lowerCodeUnit_sameLetter. split.
    + intros [= H1 H2]. auto.
    + intros [-> ->]. reflexivity.
Qed.

Lemma sameUpToCase_dec a b : {sameUpToCase a b} + {~ sameUpToCase a b}.
Proof.
  destruct (string_dec (toLowerCase a) (toLowerCase b)) as [H|H].
  - left. now apply toLowerCase_sameUpToCase.
  - right. intros H'. apply H. now apply toLowerCase_sameUpToCase.
Qed.

(** The timers that fire while a request is suspended are none when
    nothing else acts on the session. *)
Lemma execute_executeAmid dev r s : execute dev r s = executeAmid dev r [] s.
Proof. destruct r; reflexivity. Qed.

Lemma callbackContract_catch cb calls err s :
  Forall callbackContract calls ->
  Forall callbackContract (callbacks (verifyAddress_catch cb calls err s)).
Proof.
  intros H. cbn [verifyAddress_catch callbacks].
  apply Forall_app. split; [exact H|].
  constructor; [|constructor]. left. split; [discriminate|reflexivity].
Qed.

(** What a verification request does with the device's answer [result],
    whatever the callback does: the first invocation, the error path on a
    mismatch, and the [catch] block if the callback throws. *)
Lemma verifyAddress_resume_answer currentAddress cb result s :
  let call := if String.eqb (toLowerCase (address result)) (toLowerCase currentAddress)
              then mkCall None (Some true)
              else mkCall (Some "Address does not match device") None in
  let s' := if String.eqb (toLowerCase (address result)) (toLowerCase currentAddress)
            then s else handleError (errorOfCode (-1)) s in
  verifyAddress_resume currentAddress cb (Resolved result) s
  = match cb call with
    | None => mkRan s' [call] None
    | Some e => verifyAddress_catch cb [call] e s'
    end.
Proof.
  unfold verifyAddress_resume.
  destruct (String.eqb _ _); reflexivity.
Qed.

(** C8: [verifyAddress] only enqueues a request capturing its arguments.
    Run against a device that answers with an address, also while timers
    fire during the [await], the request compares that address with the
    expected one by [toLowerCase] on both sides, which is equality up to the
    case of the letters.  On a match the callback is first invoked with no
    error and [true], and if it returns that is all: the session is as the
    timers left it.  On a mismatch the synthetic code -1, which classifies
    as NEEDS_RECONNECTION, goes through [handleError] and the callback is
    first invoked with an error and no result.  Both invocations sit inside
    the [try]: a callback that throws is invoked a second time, from the
    [catch] block, with an error and no result, after the thrown value went
    through [handleError].  However the request ends, every invocation of
    the callback is with an error and no result, or with no error and a
    boolean; there are at most two, and exactly one when the callback never
    throws and the promise of [execute] resolves. *)
Theorem verifyAddress_compares_case_insensitively
    (dev : Device) (index : nat) (currentAddress : string) (display : bool)
    (cb : Callback) (hs : list nat) (s : Ledger) :
  let request := VerifyAddressRequest index currentAddress display cb in
  let matched := mkCall None (Some true) in
  let mismatch := mkCall (Some "Address does not match device") None in
  let caught e := mkCall (Some ("verify address error: " ++ message e)%string) None in
  RequestQueue.pending (requestQueue (verifyAddress index currentAddress display cb s))
  = RequestQueue.pending (requestQueue s) ++ [request] /\
  execute dev request s = executeAmid dev request [] s /\
  (forall a b, toLowerCase a = toLowerCase b <-> sameUpToCase a b) /\
  (forall d result,
     eth s <> None -> derivation s = Some d ->
     getAddress (dev_getAddress dev (getPath d index) display true) display s
     = Some (Resolved result) ->
     (sameUpToCase (address result) currentAddress ->
      executeAmid dev request hs s
      = Some match cb matched with
             | None => mkRan (fireTimers hs s) [matched] None
             | Some e =>
                 mkRan (handleError e (fireTimers hs s)) [matched; caught e]
                   (option_map message (cb (caught e)))
             end) /\
     (~ sameUpToCase (address result) currentAddress ->
      status (handleError (errorOfCode (-1)) (fireTimers hs s)) = STATUS.NEEDS_RECONNECTION /\
      executeAmid dev request hs s
      = Some match cb mismatch with
             | None =>
                 mkRan (handleError (errorOfCode (-1)) (fireTimers hs s)) [mismatch] None
             | Some e =>
                 mkRan (handleError e (handleError (errorOfCode (-1)) (fireTimers hs s)))
                   [mismatch; caught e] (option_map message (cb (caught e)))
             end)) /\
  (forall ran,
     executeAmid dev request hs s = Some ran ->
     Forall callbackContract (callbacks ran) /\
     (length (callbacks ran) <= 2)%nat /\
     ((forall c, cb c = None) ->
      length (callbacks ran) = match threw ran with None => 1%nat | Some _ => 0%nat end)).
Proof.
  cbv zeta. split; [|split; [|split; [|split]]].
  - unfold verifyAddress, enqueueRequests. reflexivity.
  - apply execute_executeAmid.
  - intros a b. apply toLowerCase_sameUpToCase.
  - intros d result Heth Hd Hget.
    assert (Hrun : executeAmid dev (VerifyAddressRequest index currentAddress display cb) hs s
                   = Some (verifyAddress_resume currentAddress cb (Resolved result)
                             (fireTimers hs s))).
    { unfold executeAmid, verifyAddress_begin. rewrite Hd.
      destruct (eth s); [|congruence]. now rewrite Hget. }
    rewrite Hrun, verifyAddress_resume_answer. split.
    + intros Hsame. apply toLowerCase_sameUpToCase, String.eqb_eq in Hsame.
      rewrite Hsame. destruct (cb _); reflexivity.
    + intros Hdiff.
      assert (Hne : String.eqb (toLowerCase (address result)) (toLowerCase currentAddress)
                    = false).
      { apply String.eqb_neq. intros H. apply Hdiff. now apply toLowerCase_sameUpToCase. }
      rewrite Hne. split; [now rewrite status_handleError|].
      destruct (cb _); reflexivity.
  - intros ran. unfold executeAmid.
    destruct (verifyAddress_begin index s) as [msg|path].
    + intros [= <-]. cbn. split; [constructor|]. split; [lia|reflexivity].
    + destruct (getAddress _ display s) as [x|]; [|discriminate].
      intros [= <-]. destruct x as [result|err].
      * rewrite verifyAddress_resume_answer. cbv zeta.
        set (call := if String.eqb _ _ then _ else _).
        assert (Hcall : callbackContract call).
        { subst call. destruct (String.eqb _ _).
          - right. split; [reflexivity|eauto].
          - left. split; [discriminate|reflexivity]. }
        clearbody call. destruct (cb call) as [e|] eqn:E.
        -- split; [apply callbackContract_catch; constructor; [exact Hcall|constructor]|].
           split; [cbn; lia|]. intros Hcb. rewrite Hcb in E. discriminate.
        -- cbn [callbacks threw length]. split; [constructor; [exact Hcall|constructor]|].
           split; [lia|reflexivity].
      * cbn [verifyAddress_resume]. split; [apply callbackContract_catch; constructor|].
        split; [cbn; lia|]. intros Hcb. cbn. now rewrite Hcb.
Qed.

Lemma verifyAddress_compares_case_insensitively_witness :
  let s := set_derivation (Some standard) (open (new_Ledger "usb")) in
  let expected := "0xABCDEF0123456789abcdefXYZ" in
  executeAmid (answering "0xabcdef0123456789ABCDEFxyz")
    (VerifyAddressRequest 0 expected false noCallback) [0%nat] s
  = Some (mkRan (fireTimers [0%nat] s) [mkCall None (Some true)] None) /\
  executeAmid (answering "0xabcdef0123456789ABCDEFxyy")
    (VerifyAddressRequest 0 expected false noCallback) [0%nat] s
  = Some (mkRan (handleError (errorOfCode (-1)) (fireTimers [0%nat] s))
            [mkCall (Some "Address does not match device") None] None).
Proof.
  cbv zeta.
  pose proof (verifyAddress_compares_case_insensitively
                (answering "0xabcdef0123456789ABCDEFxyz") 0 "0xABCDEF0123456789abcdefXYZ"
                false noCallback [0%nat]
                (set_derivation (Some standard) (open (new_Ledger "usb")))) as H1.
  pose proof (verifyAddress_compares_case_insensitively
                (answering "0xabcdef0123456789ABCDEFxyy") 0 "0xABCDEF0123456789abcdefXYZ"
                false noCallback [0%nat]
                (set_derivation (Some standard) (open (new_Ledger "usb")))) as H2.
  cbv zeta in H1, H2.
  destruct H1 as (_ & _ & Hcase & H1 & _). destruct H2 as (_ & _ & _ & H2 & _).
  split.
  - destruct (H1 standard (mkAddress "0xabcdef0123456789ABCDEFxyz" "" None)) as [Hm _].
    + discriminate.
    + reflexivity.
    + reflexivity.
    + apply Hm. apply Hcase. reflexivity.
  - destruct (H2 standard (mkAddress "0xabcdef0123456789ABCDEFxyy" "" None)) as [_ Hm].
    + discriminate.
    + reflexivity.
    + reflexivity.
    + apply Hm. intros Hsame. apply Hcase in Hsame. discriminate.
Defined.

(** ** Claim C9 *)

(** C9, as stated, fails on the classification: while the session is still
    CONNECTING the timer of [getAppConfiguration] rejects with code 27904,
    which the classifier maps to WRONG_APP, not to LOCKED. *)
Lemma getAppConfiguration_timeout_CONNECTING_not_locked :
  getAppConfiguration Never (open (new_Ledger "usb"))
  = Some (Rejected (mkDeviceError (Some 27904) "getAppConfiguration timed out")) /\
  getStatusForError (mkDeviceError (Some 27904) "getAppConfiguration timed out")
  <> STATUS.LOCKED.
Proof. split; [reflexivity | discriminate]. Qed.

(** C9 (amended): [getAppConfiguration] races the device call against a
    1000 ms timer: a device that settles earlier decides the outcome; when
    the timer fires first the call rejects with a synthetic code that depends
    on the status: 27904, classified WRONG_APP, while the session is still
    CONNECTING, and -1, classified NEEDS_RECONNECTION, in any other status. *)
Theorem getAppConfiguration_timeout_code (a : Answer AppConfiguration) (s : Ledger) :
  eth s <> None ->
  (forall ms x, a = Within ms x -> ms < 1000 -> getAppConfiguration a s = Some x) /\
  (a = Never \/ (exists ms x, a = Within ms x /\ 1000 <= ms) ->
     getAppConfiguration a s = Some (Rejected (getAppConfiguration_timeout s)) /\
     (status s = STATUS.INITIAL ->
        statusCode (getAppConfiguration_timeout s) = Some 27904 /\
        getStatusForError (getAppConfiguration_timeout s) = STATUS.WRONG_APP) /\
     (status s <> STATUS.INITIAL ->
        statusCode (getAppConfiguration_timeout s) = Some (-1) /\
        getStatusForError (getAppConfiguration_timeout s) = STATUS.NEEDS_RECONNECTION)).
Proof.
  intros Heth. unfold getAppConfiguration.
  destruct (eth s) as [app|]; [clear Heth | contradiction].
  split.
  - intros ms x -> Hms. cbn. apply Z.ltb_lt in Hms. now rewrite Hms.
  - intros Hlate. split; [|split].
    + destruct Hlate as [->|[ms [x [-> Hms]]]]; cbn; [reflexivity|].
      apply Z.ltb_ge in Hms. now rewrite Hms.
    + intros Hs. unfold getAppConfiguration_timeout. rewrite Hs. split; reflexivity.
    + intros Hs. unfold getAppConfiguration_timeout.
      apply String.eqb_neq in Hs. rewrite Hs. split; reflexivity.
Qed.

Lemma getAppConfiguration_timeout_code_witness :
  getStatusForError (getAppConfiguration_timeout (open (new_Ledger "usb")))
  = STATUS.WRONG_APP /\
  getStatusForError
    (getAppConfiguration_timeout (updateStatus STATUS.OK (open (new_Ledger "usb"))))
  = STATUS.NEEDS_RECONNECTION.
Proof.
  split.
  - apply (proj2 (getAppConfiguration_timeout_code Never (open (new_Ledger "usb"))
                    ltac:(discriminate))).
    + left; reflexivity.
    + reflexivity.
  - apply (proj2 (getAppConfiguration_timeout_code Never
                    (updateStatus STATUS.OK (open (new_Ledger "usb")))
                    ltac:(discriminate))).
    + left; reflexivity.
    + discriminate.
Defined.

(** ** Claim C10 *)

(** C10, as stated, fails on one code: a device error whose [statusCode] is
    present and equal to 0 does not make [checkDeviceStatus] resolve with
    that code; [e.statusCode || -1] turns it into -1. *)
Lemma checkDeviceStatus_statusCode_zero :
  statusCode (mkDeviceError (Some 0) "device error") = Some 0 /\
  fst (checkDeviceStatus (Within 20 (Rejected (mkDeviceError (Some 0) "device error")))
         (open (new_Ledger "usb")))
  = Some (Resolved (-1)).
Proof. split; reflexivity. Qed.

(** C10 (amended): [checkDeviceStatus()] never rejects.  Whatever the probe
    does it resolves with a code: 0 when the probe succeeds in time (or when
    there is no app to probe), the error's [statusCode] when the probe
    throws in time with a status code that is present and not 0, and -1
    when it throws without a status code or with status code 0, or does not
    settle within 3000 ms.  In [connect()], once the app configuration has
    been read, no outcome of the probe leads into the [catch] block. *)
Theorem checkDeviceStatus_never_rejects (a : Answer Address) (s : Ledger) :
  (exists code, fst (checkDeviceStatus a s) = Some (Resolved code)) /\
  (eth s = None -> fst (checkDeviceStatus a s) = Some (Resolved 0)) /\
  (eth s <> None ->
     (forall ms r, a = Within ms (Resolved r) -> ms < 3000 ->
        fst (checkDeviceStatus a s) = Some (Resolved 0)) /\
     (forall ms e c, a = Within ms (Rejected e) -> ms < 3000 ->
        statusCode e = Some c -> c <> 0 ->
        fst (checkDeviceStatus a s) = Some (Resolved c)) /\
     (forall ms e, a = Within ms (Rejected e) -> ms < 3000 ->
        statusCode e = None \/ statusCode e = Some 0 ->
        fst (checkDeviceStatus a s) = Some (Resolved (-1))) /\
     (a = Never \/ (exists ms x, a = Within ms x /\ 3000 <= ms) ->
        fst (checkDeviceStatus a s) = Some (Resolved (-1)))) /\
  (forall dev config,
     dev_getAddress dev probePath false false = a ->
     getAppConfiguration (dev_getAppConfiguration dev)
       (emit "update" (updateStatus STATUS.INITIAL s)) = Some (Resolved config) ->
     exists s', connect dev s = inl s').
Proof.
  assert (Hfst : forall a s code,
            check a s = Some (Resolved code) ->
            fst (checkDeviceStatus a s) = Some (Resolved code)).
  { intros a0 s0 code H. unfold checkDeviceStatus, then_. rewrite H.
    unfold checkDeviceStatus_then.
    destruct (code =? 0); [destruct (String.eqb _ _)|]; reflexivity. }
  assert (Hres : forall a s, exists code, check a s = Some (Resolved code)).
  { intros a0 s0. unfold check, probe.
    destruct (eth s0); [|cbn; eauto].
    destruct a0 as [ms [r|e]|]; cbn; [destruct (ms <? 3000).. |]; eauto. }
  split; [|split; [|split]].
  - destruct (Hres a s) as [code H]. exists code. now apply Hfst.
  - intros Heth. apply Hfst. unfold check, probe. rewrite Heth. reflexivity.
  - intros Heth.
    assert (Hp : probe a s
                 = match a with
                   | Within ms (Resolved _) => Within ms (Resolved 0)
                   | Within ms (Rejected e) => Within ms (Resolved (orElse (statusCode e) (-1)))
                   | Never => Never
                   end).
    { unfold probe. destruct (eth s); [reflexivity | contradiction]. }
    split; [|split; [|split]].
    + intros ms r -> Hms. apply Hfst. unfold check. rewrite Hp. cbn.
      apply Z.ltb_lt in Hms. now rewrite Hms.
    + intros ms e c -> Hms Hc Hne. apply Hfst. unfold check. rewrite Hp. cbn.
      apply Z.ltb_lt in Hms. rewrite Hms, Hc. cbn.
      apply Z.eqb_neq in Hne. now rewrite Hne.
    + intros ms e -> Hms Hc. apply Hfst. unfold check. rewrite Hp. cbn.
      apply Z.ltb_lt in Hms. rewrite Hms. destruct Hc as [-> | ->]; reflexivity.
    + intros Hlate. apply Hfst. unfold check. rewrite Hp.
      destruct Hlate as [->|[ms [x [-> Hms]]]]; [reflexivity|].
      apply Z.ltb_ge in Hms. destruct x; cbn; now rewrite Hms.
  - intros dev config Ha Hcfg. unfold connect. rewrite Hcfg, Ha.
    destruct (Hres a (emit "update" (updateStatus STATUS.INITIAL s))) as [code Hcode].
    pose proof (Hfst _ _ _ Hcode) as Hf.
    destruct (checkDeviceStatus a _) as [p s']. cbn in Hf. subst p. eauto.
Qed.

Lemma checkDeviceStatus_never_rejects_witness :
  fst (checkDeviceStatus (Within 20 (Rejected (errorOfCode 27404))) (open (new_Ledger "usb")))
  = Some (Resolved 27404) /\
  fst (checkDeviceStatus Never (open (new_Ledger "usb"))) = Some (Resolved (-1)).
Proof.
  assert (Heth : eth (open (new_Ledger "usb")) <> None) by discriminate.
  split.
  - destruct (checkDeviceStatus_never_rejects
                (Within 20 (Rejected (errorOfCode 27404))) (open (new_Ledger "usb")))
      as [_ [_ [Hprobe _]]].
    destruct (Hprobe Heth) as [_ [Hcode _]].
    apply (Hcode 20 (errorOfCode 27404) 27404);
      [reflexivity | reflexivity | reflexivity | discriminate].
  - destruct (checkDeviceStatus_never_rejects Never (open (new_Ledger "usb")))
      as [_ [_ [Hprobe _]]].
    destruct (Hprobe Heth) as [_ [_ [_ Hlate]]].
    apply Hlate. left; reflexivity.
Defined.

(** ** Claim C1 *)

Lemma option_Derivation_eqb_eq a b : option_Derivation_eqb a b = true <-> a = b.
Proof.
  destruct a as [[]|], b as [[]|]; cbn; split; intros H; try reflexivity; discriminate.
Qed.

Lemma option_Derivation_eqb_neq a b : option_Derivation_eqb a b = false <-> a <> b.
Proof.
  rewrite <- option_Derivation_eqb_eq. destruct (option_Derivation_eqb a b); split; congruence.
Qed.

Lemma derivation_updateStatus st s : derivation (updateStatus st s) = derivation s.
Proof.
  unfold updateStatus; cbn.
  destruct (String.eqb st STATUS.OK) eqn:Hok; cbn.
  - apply String.eqb_eq in Hok; subst st; reflexivity.
  - destruct (String.eqb st STATUS.LOCKED); reflexivity.
Qed.

Lemma derivation_deriveAddresses s : derivation (deriveAddresses s) = derivation s.
Proof.
  unfold deriveAddresses. destruct (option_Derivation_eqb _ _); reflexivity.
Qed.

Lemma addresses_deriveAddresses s : addresses (deriveAddresses s) = [].
Proof.
  unfold deriveAddresses. destruct (option_Derivation_eqb _ _); reflexivity.
Qed.

(** C1, as stated, fails: the class keeps no derivation epoch, it compares
    derivations.  Derivation is triggered for [live] (epoch 1) and the queue
    begins the request for index 0; the derivation is changed to [legacy]
    and derivation triggered again (epoch 2), then changed back to [live]
    and triggered again (epoch 3), which empties the list; then the device
    call of the epoch-1 request completes, and its address is put into the
    list. *)
Lemma stale_result_overwrites_addresses :
  beginNext (snd firstTrigger) = Some (DeriveLiveRequest 0, inFlight) /\
  deriveLive_begin 0 inFlight = inr (getPath live 0) /\
  (fst firstTrigger < fst thirdTrigger)%nat /\
  addresses (snd thirdTrigger) = [] /\
  addresses (deriveLive_resume (Resolved (mkAddress "0xa0" "" None)) (snd thirdTrigger))
  = ["0xa0"].
Proof.
  split; [vm_compute; reflexivity|].
  split; [vm_compute; reflexivity|].
  split; [unfold thirdTrigger, secondTrigger, firstTrigger, triggerDerivation; cbn [fst]; lia|].
  split; vm_compute; reflexivity.
Qed.

(** C1 (amended): an address-derivation task changes the addresses list at
    completion only if its device call succeeded and the session's
    derivation at that time equals the task's target: the derivation captured
    when the bulk task was created, [live] for a per-index task.  Then the
    bulk task replaces the list and the per-index task appends to it.  In
    particular a result that completes after derivation was triggered again
    leaves the (emptied) list unaffected when the derivation was changed to
    a different target. *)
Theorem derivation_guard :
  (forall target x s, derivation s <> target ->
     addresses (deriveHardware_resume target x s) = addresses s) /\
  (forall x s, derivation s <> Some live ->
     addresses (deriveLive_resume x s) = addresses s) /\
  (forall target e s, addresses (deriveHardware_resume target (Rejected e) s) = addresses s) /\
  (forall e s, addresses (deriveLive_resume (Rejected e) s) = addresses s) /\
  (forall target addrs s, derivation s = target ->
     addresses (deriveHardware_resume target (Resolved addrs) s) = addrs) /\
  (forall a s, derivation s = Some live ->
     addresses (deriveLive_resume (Resolved a) s) = addresses s ++ [address a]) /\
  (forall target x s, derivation s <> target ->
     addresses (deriveHardware_resume target x (deriveAddresses s)) = []) /\
  (forall x s, derivation s <> Some live ->
     addresses (deriveLive_resume x (deriveAddresses s)) = []).
Proof.
  assert (Hhw : forall target x s, derivation s <> target ->
            addresses (deriveHardware_resume target x s) = addresses s).
  { intros target x s Hne. destruct x as [addrs|e]; cbn.
    - apply option_Derivation_eqb_neq in Hne. now rewrite Hne.
    - apply addresses_handleError. }
  assert (Hlive : forall x s, derivation s <> Some live ->
            addresses (deriveLive_resume x s) = addresses s).
  { intros x s Hne. destruct x as [a|e]; cbn.
    - apply option_Derivation_eqb_neq in Hne. now rewrite Hne.
    - apply addresses_handleError. }
  split; [exact Hhw|]. split; [exact Hlive|].
  split; [intros; apply addresses_handleError|].
  split; [intros; apply addresses_handleError|].
  split; [|split; [|split]].
  - intros target addrs s Heq. cbn.
    apply option_Derivation_eqb_eq in Heq. rewrite Heq. reflexivity.
  - intros a s Heq. cbn.
    apply option_Derivation_eqb_eq in Heq. rewrite Heq. cbn.
    destruct (String.eqb (status s) STATUS.DERIVING); reflexivity.
  - intros target x s Hne.
    rewrite Hhw by (now rewrite derivation_deriveAddresses).
    apply addresses_deriveAddresses.
  - intros x s Hne.
    rewrite Hlive by (now rewrite derivation_deriveAddresses).
    apply addresses_deriveAddresses.
Qed.

Lemma derivation_guard_witness :
  addresses (deriveHardware_resume (Some legacy) (Resolved ["0x01"; "0x02"])
               (deriveAddresses (set_derivation (Some standard) liveSession)))
  = [] /\
  addresses (deriveLive_resume (Resolved (mkAddress "0x0a" "" None)) liveSession)
  = addresses liveSession ++ ["0x0a"].
Proof.
  split.
  - apply (proj1 (proj2 (proj2 (proj2 (proj2 (proj2 (proj2 derivation_guard))))))).
    discriminate.
  - apply (proj1 (proj2 (proj2 (proj2 (proj2 (proj2 derivation_guard)))))
             (mkAddress "0x0a" "" None) liveSession).
    reflexivity.
Defined.

(** ** Claim C5 *)

Lemma not_reconnection_codes e :
  getStatusForError e <> STATUS.NEEDS_RECONNECTION ->
  exists c, statusCode e = Some c /\ In c [27404; 27904; 27906; 25873; 25871].
Proof.
  unfold getStatusForError, needToOpenEthApp, isDeviceAsleep, includes.
  destruct (statusCode e) as [c|]; cbn; [|congruence].
  intros H. exists c. split; [reflexivity|].
  destruct (Z.eqb_spec c 27904); [subst; cbn; auto 10|].
  destruct (Z.eqb_spec c 27906); [subst; cbn; auto 10|].
  destruct (Z.eqb_spec c 25873); [subst; cbn; auto 10|].
  destruct (Z.eqb_spec c 25871); [subst; cbn; auto 10|].
  destruct (Z.eqb_spec c 27404); [subst; cbn; auto 10|].
  cbn in H. congruence.
Qed.

(** C5, as stated, fails for the failures that classify as
    NEEDS_RECONNECTION (here code 26368): [handleError] then calls
    [close()], which closes the queue, so the requests for indices 3 and 4
    are dropped and only the addresses of indices 0 and 1 are listed. *)
Lemma deriveLive_reconnection_failure_drops_siblings :
  addresses
    (run (liveDevice 5 (failingAt2 (mkAddress "0xa0" "" None) (mkAddress "0xa1" "" None)
                          (mkAddress "0xa3" "" None) (mkAddress "0xa4" "" None)
                          (errorOfCode 26368)))
       (deriveAddresses liveSession))
  = ["0xa0"; "0xa1"] /\
  RequestQueue.running
    (requestQueue
       (run (liveDevice 5 (failingAt2 (mkAddress "0xa0" "" None) (mkAddress "0xa1" "" None)
                             (mkAddress "0xa3" "" None) (mkAddress "0xa4" "" None)
                             (errorOfCode 26368)))
          (deriveAddresses liveSession)))
  = false /\
  closeCalled (deriveAddresses liveSession)
    (run (liveDevice 5 (failingAt2 (mkAddress "0xa0" "" None) (mkAddress "0xa1" "" None)
                          (mkAddress "0xa3" "" None) (mkAddress "0xa4" "" None)
                          (errorOfCode 26368)))
       (deriveAddresses liveSession))
  = true.
Proof. split; [|split]; vm_compute; reflexivity. Qed.

(** C5 (amended): in per-index derivation with [accountLimit] 5, run from a
    started, idle queue with no timer firing in between, if the device call
    for index 2 fails with a code that classifies as LOCKED or WRONG_APP
    while the calls for indices 0, 1, 3 and 4 succeed, the failure
    is caught inside its request and goes through [handleError] (the status
    becomes the classified one), [close()] is not called (the queue is still
    running, no transport close is under way), every request is run, and the
    final list holds the addresses of indices 0, 1, 3 and 4 in ascending
    index order. *)
Theorem deriveLive_failure_keeps_siblings
    (s : Ledger) (a0 a1 a3 a4 : Address) (e : DeviceError) :
  eth s <> None ->
  derivation s = Some live ->
  accountLimit s = 5%nat ->
  RequestQueue.running (requestQueue s) = true ->
  RequestQueue.current (requestQueue s) = None ->
  getStatusForError e <> STATUS.NEEDS_RECONNECTION ->
  RequestQueue.pending (requestQueue (deriveAddresses s))
  = map DeriveLiveRequest [0; 1; 2; 3; 4]%nat /\
  addresses (run (liveDevice 5 (failingAt2 a0 a1 a3 a4 e)) (deriveAddresses s))
  = [address a0; address a1; address a3; address a4] /\
  status (run (liveDevice 5 (failingAt2 a0 a1 a3 a4 e)) (deriveAddresses s))
  = getStatusForError e /\
  RequestQueue.pending
    (requestQueue (run (liveDevice 5 (failingAt2 a0 a1 a3 a4 e)) (deriveAddresses s)))
  = [] /\
  RequestQueue.running
    (requestQueue (run (liveDevice 5 (failingAt2 a0 a1 a3 a4 e)) (deriveAddresses s)))
  = true /\
  closing (run (liveDevice 5 (failingAt2 a0 a1 a3 a4 e)) (deriveAddresses s))
  = closing s.
Proof.
  intros Heth Hd Hlimit Hrun Hcur He.
  destruct (not_reconnection_codes e He) as [c [Hc Hin]].
  destruct s as [eth0 dp d al [r p cu] sp st ad tm nt cl em]. cbn in *. subst.
  destruct eth0 as [app|]; [|contradiction].
  destruct e as [sc msg]. cbn in Hc. subst sc.
  destruct Hin as [<-|[<-|[<-|[<-|[<-|[]]]]]];
    (split; [reflexivity|]);
    (split; [vm_compute; reflexivity|]);
    (split; [vm_compute; reflexivity|]);
    (split; [vm_compute; reflexivity|]);
    split; vm_compute; reflexivity.
Qed.

Lemma deriveLive_failure_keeps_siblings_witness :
  addresses
    (run (liveDevice 5 (failingAt2 (mkAddress "0xa0" "" None) (mkAddress "0xa1" "" None)
                          (mkAddress "0xa3" "" None) (mkAddress "0xa4" "" None)
                          (errorOfCode 27404)))
       (deriveAddresses liveSession))
  = ["0xa0"; "0xa1"; "0xa3"; "0xa4"].
Proof.
  apply (deriveLive_failure_keeps_siblings liveSession
           (mkAddress "0xa0" "" None) (mkAddress "0xa1" "" None)
           (mkAddress "0xa3" "" None) (mkAddress "0xa4" "" None) (errorOfCode 27404)).
  - discriminate.
  - reflexivity.
  - reflexivity.
  - reflexivity.
  - reflexivity.
  - discriminate.
Defined.

(** ** The queue is worked off *)

Lemma requestQueue_updateStatus st s : requestQueue (updateStatus st s) = requestQueue s.
Proof.
  unfold updateStatus; cbn.
  destruct (String.eqb st STATUS.OK) eqn:Hok; cbn.
  - apply String.eqb_eq in Hok; subst st; reflexivity.
  - destruct (String.eqb st STATUS.LOCKED); reflexivity.
Qed.

Lemma requestQueue_close s : requestQueue (close s) = RequestQueue.close (requestQueue s).
Proof. unfold close; cbn. destruct (eth s); reflexivity. Qed.

Lemma requestQueue_handleError err s :
  keptOrClosed (requestQueue s) (requestQueue (handleError err s)).
Proof.
  unfold keptOrClosed.
  destruct (handleError_cases err s) as [[_ [_ ->]]|[[_ ->]|[[_ [_ ->]]|[_ [_ ->]]]]].
  - left. reflexivity.
  - left. reflexivity.
  - left. reflexivity.
  - right. rewrite requestQueue_close. reflexivity.
Qed.

Lemma requestQueue_checkDeviceStatus a s :
  keptOrClosed (requestQueue s) (requestQueue (snd (checkDeviceStatus a s))).
Proof.
  unfold checkDeviceStatus, then_.
  destruct (check a s) as [[code|e]|]; cbn; try (left; reflexivity).
  unfold checkDeviceStatus_then.
  destruct (code =? 0).
  - destruct (String.eqb (status s) STATUS.LOCKED); left; reflexivity.
  - apply requestQueue_handleError.
Qed.

Lemma keptOrClosed_trans q1 q2 q3 :
  keptOrClosed q1 q2 -> keptOrClosed q2 q3 -> keptOrClosed q1 q3.
Proof.
  unfold keptOrClosed. intros [->| ->] [->| ->]; auto.
Qed.

(** Whatever the error path keeps, the part of a verification request
    after its [await] keeps: it acts on the session through [handleError]
    only. *)
Lemma verifyAddress_resume_preserves (P : Ledger -> Prop) currentAddress cb x s :
  (forall e y, P y -> P (handleError e y)) ->
  P s -> P (after (verifyAddress_resume currentAddress cb x s)).
Proof.
  intros Hh Hs. destruct x as [result|err].
  - rewrite verifyAddress_resume_answer. cbv zeta.
    destruct (String.eqb _ _); destruct (cb _); cbn [after verifyAddress_catch]; auto.
  - cbn [verifyAddress_resume verifyAddress_catch after]. auto.
Qed.

Lemma requestQueue_verifyAddress_resume currentAddress cb x s0 s :
  keptOrClosed (requestQueue s0) (requestQueue s) ->
  keptOrClosed (requestQueue s0)
    (requestQueue (after (verifyAddress_resume currentAddress cb x s))).
Proof.
  apply (verifyAddress_resume_preserves
           (fun y => keptOrClosed (requestQueue s0) (requestQueue y))).
  intros e y Hy. eapply keptOrClosed_trans; [exact Hy|apply requestQueue_handleError].
Qed.

Lemma requestQueue_execute dev r s ran :
  execute dev r s = Some ran ->
  keptOrClosed (requestQueue s) (requestQueue (after ran)).
Proof.
  destruct r as [lastStatus|i|target|index currentAddress display cb]; unfold execute.
  - destruct (negb _).
    + intros [= <-]. left; reflexivity.
    + pose proof (requestQueue_checkDeviceStatus (dev_getAddress dev probePath false false) s) as H.
      destruct (checkDeviceStatus _ s) as [[[code|e]|] s']; cbn in H;
        intros [= <-]; exact H.
  - unfold deriveLive_begin.
    destruct (eth s); [destruct (derivation s)|];
      try (intros [= <-]; apply requestQueue_handleError).
    destruct (dev_getAddress dev _ false false) as [ms [a|e]|]; cbn [race]; intros [= <-];
      cbn [after deriveLive_resume].
    + destruct (option_Derivation_eqb _ _); [|left; reflexivity].
      destruct (String.eqb _ _); left; reflexivity.
    + apply requestQueue_handleError.
  - unfold deriveHardware_begin.
    destruct (eth s); [destruct (derivation s)|];
      try (intros [= <-]; apply requestQueue_handleError).
    destruct (dev_deriveAddresses dev _) as [ms [addrs|e]|]; cbn [race]; intros [= <-];
      cbn [after deriveHardware_resume].
    + destruct (option_Derivation_eqb _ _); [|left; reflexivity].
      destruct (String.eqb _ _); left; reflexivity.
    + apply requestQueue_handleError.
  - destruct (verifyAddress_begin index s).
    + intros [= <-]. left; reflexivity.
    + destruct (getAddress _ display s) as [x|]; intros [= <-].
      apply requestQueue_verifyAddress_resume. left; reflexivity.
Qed.

(** Each request that is run takes at least itself off the queue. *)
Lemma runNext_shortens dev s s' :
  runNext dev s = Some s' ->
  (length (RequestQueue.pending (requestQueue s'))
   < length (RequestQueue.pending (requestQueue s)))%nat.
Proof.
  unfold runNext, beginNext, RequestQueue.next.
  destruct (RequestQueue.running (requestQueue s)); [|discriminate].
  destruct (RequestQueue.current (requestQueue s)); [discriminate|].
  destruct (RequestQueue.pending (requestQueue s)) as [|r rest]; [discriminate|].
  destruct (execute dev r _) as [ran|] eqn:Hexec; [|discriminate].
  intros [= <-]. apply requestQueue_execute in Hexec. cbn in *.
  destruct Hexec as [-> | ->]; cbn; lia.
Qed.

Lemma drain_exhausts dev fuel : forall s,
  (length (RequestQueue.pending (requestQueue s)) <= fuel)%nat ->
  runNext dev (drain dev fuel s) = None.
Proof.
  induction fuel as [|n IH]; intros s Hlen; cbn.
  - unfold runNext, beginNext, RequestQueue.next.
    destruct (RequestQueue.pending (requestQueue s)); [|cbn in Hlen; lia].
    destruct (RequestQueue.running _); [|reflexivity].
    destruct (RequestQueue.current _); reflexivity.
  - destruct (runNext dev s) as [s'|] eqn:Hnext; [|exact Hnext].
    apply IH. apply runNext_shortens in Hnext. lia.
Qed.

(** [run] stops only when the queue has nothing to begin or its current
    request never settles. *)
Lemma run_exhausts dev s : runNext dev (run dev s) = None.
Proof. apply drain_exhausts. reflexivity. Qed.

(** ** The poller's handle stays allocated *)

Lemma pollerAllocated_new path : pollerAllocated (new_Ledger path).
Proof. unfold pollerAllocated; cbn. lia. Qed.

Lemma pollerAllocated_close s : pollerAllocated s -> pollerAllocated (close s).
Proof. unfold pollerAllocated, close; cbn. destruct (eth s); cbn; lia. Qed.

Lemma pollerAllocated_handleError err s :
  pollerAllocated s -> pollerAllocated (handleError err s).
Proof.
  intros H.
  destruct (handleError_cases err s) as [[_ [_ ->]]|[[_ ->]|[[_ [_ ->]]|[_ [_ ->]]]]];
    try apply pollerAllocated_close;
    try (change (pollerAllocated (emit ?ev ?x)) with (pollerAllocated x));
    try apply pollerAllocated_updateStatus; exact H.
Qed.

Lemma pollerAllocated_fireTimer h s : pollerAllocated s -> pollerAllocated (fireTimer h s).
Proof.
  unfold pollerAllocated, fireTimer. intros H.
  destruct (timers s !! h) as [[|f l]|]; cbn; try lia.
Qed.

Lemma pollerAllocated_checkDeviceStatus a s :
  pollerAllocated s -> pollerAllocated (snd (checkDeviceStatus a s)).
Proof.
  intros H. unfold checkDeviceStatus, then_.
  destruct (check a s) as [[code|e]|]; cbn; try exact H.
  unfold checkDeviceStatus_then.
  destruct (code =? 0).
  - destruct (String.eqb (status s) STATUS.LOCKED); cbn; [|exact H].
    unfold pollerAllocated; cbn. lia.
  - now apply pollerAllocated_handleError.
Qed.

Lemma pollerAllocated_deriveAddresses s :
  pollerAllocated s -> pollerAllocated (deriveAddresses s).
Proof.
  unfold pollerAllocated, deriveAddresses. intros H.
  destruct (option_Derivation_eqb _ _); cbn; exact H.
Qed.

Lemma pollerAllocated_execute dev r s ran :
  pollerAllocated s -> execute dev r s = Some ran -> pollerAllocated (after ran).
Proof.
  intros H.
  assert (Hok : forall x, pollerAllocated x ->
            pollerAllocated (if String.eqb (status x) STATUS.DERIVING
                             then updateStatus STATUS.OK x else x)).
  { intros x Hx. destruct (String.eqb _ _); [now apply pollerAllocated_updateStatus | exact Hx]. }
  destruct r as [lastStatus|i|target|index currentAddress display cb]; unfold execute.
  - destruct (negb _).
    + intros [= <-]. exact H.
    + pose proof (pollerAllocated_checkDeviceStatus
                    (dev_getAddress dev probePath false false) s H) as Hc.
      destruct (checkDeviceStatus _ s) as [[[code|e]|] s']; cbn in Hc;
        intros [= <-]; exact Hc.
  - unfold deriveLive_begin.
    destruct (eth s); [destruct (derivation s)|];
      try (intros [= <-]; now apply pollerAllocated_handleError).
    destruct (dev_getAddress dev _ false false) as [ms [a|e]|]; cbn [race]; intros [= <-];
      cbn [after deriveLive_resume].
    + destruct (option_Derivation_eqb _ _); [|exact H]. apply (Hok s H).
    + now apply pollerAllocated_handleError.
  - unfold deriveHardware_begin.
    destruct (eth s); [destruct (derivation s)|];
      try (intros [= <-]; now apply pollerAllocated_handleError).
    destruct (dev_deriveAddresses dev _) as [ms [addrs|e]|]; cbn [race]; intros [= <-];
      cbn [after deriveHardware_resume].
    + destruct (option_Derivation_eqb _ _); [|exact H]. apply (Hok s H).
    + now apply pollerAllocated_handleError.
  - destruct (verifyAddress_begin index s).
    + intros [= <-]. exact H.
    + destruct (getAddress _ display s) as [x|]; intros [= <-].
      apply verifyAddress_resume_preserves; [|exact H].
      intros e y Hy. now apply pollerAllocated_handleError.
Qed.

Lemma pollerAllocated_runNext dev s s' :
  pollerAllocated s -> runNext dev s = Some s' -> pollerAllocated s'.
Proof.
  intros H. unfold runNext, beginNext.
  destruct (RequestQueue.next (requestQueue s)) as [[r q]|]; [|discriminate].
  destruct (execute dev r _) as [ran|] eqn:Hexec; [|discriminate].
  intros [= <-]. apply pollerAllocated_execute in Hexec; [exact Hexec | exact H].
Qed.

(** ** Worked runs *)

(** [verifyAddress(0, "0xABCD", false, cb)] against a device that returns
    ["0xabcd"]: the request runs to [cb(null, true)] and leaves the session
    as it was. *)
Example verifyAddress_other_case :
  execute (answering "0xabcd") (VerifyAddressRequest 0 "0xABCD" false noCallback)
    (set_derivation (Some standard) (open (new_Ledger "usb")))
  = Some (mkRan (set_derivation (Some standard) (open (new_Ledger "usb")))
            [mkCall None (Some true)] None).
Proof. vm_compute. reflexivity. Qed.

(** The same request with a callback that throws whatever it is given: it
    is invoked with [(null, true)] inside the [try], what it threw goes
    through [handleError] and it is invoked again from the [catch] block;
    what it throws there rejects the promise of [execute]. *)
Example verifyAddress_throwing_callback :
  let s := set_derivation (Some standard) (open (new_Ledger "usb")) in
  execute (answering "0xabcd")
    (VerifyAddressRequest 0 "0xABCD" false (fun _ => Some (Error "thrown"))) s
  = Some (mkRan (handleError (Error "thrown") s)
            [mkCall None (Some true); mkCall (Some "verify address error: thrown") None]
            (Some "thrown")).
Proof. vm_compute. reflexivity. Qed.

(** Letters outside ASCII are folded too: U+00C9 and U+00E9 compare equal,
    the multiplication sign U+00D7 and the division sign U+00F7 do not. *)
Example toLowerCase_latin1 :
  toLowerCase (String (ascii_of_nat 201) "") = String (ascii_of_nat 233) "" /\
  toLowerCase (String (ascii_of_nat 215) "") = String (ascii_of_nat 215) "" /\
  toLowerCase (String (ascii_of_nat 247) "") = String (ascii_of_nat 247) "".
Proof. split; [|split]; reflexivity. Qed.

(** The same request without [display] against a silent device: the
    3000 ms timer rejects with code -1, the session goes to
    NEEDS_RECONNECTION and the callback gets the descriptive error. *)
Example verifyAddress_times_out :
  (status <$> (after <$> execute silent (VerifyAddressRequest 0 "0xABCD" false noCallback)
                           (set_derivation (Some standard) (open (new_Ledger "usb")))))
  = Some STATUS.NEEDS_RECONNECTION /\
  (callbacks <$> execute silent (VerifyAddressRequest 0 "0xABCD" false noCallback)
                   (set_derivation (Some standard) (open (new_Ledger "usb"))))
  = Some [mkCall (Some "verify address error: getAddress timed out") None].
Proof. split; vm_compute; reflexivity. Qed.

(** [connect()] against a silent device: [getAppConfiguration] times out
    with 27904 while CONNECTING, the [catch] block runs, the status is
    WRONG_APP and the session is closed. *)
Example connect_silent_device :
  match connect silent (open (new_Ledger "usb")) with
  | inr s =>
      status s = STATUS.WRONG_APP /\
      emitted s = ["update"; "update"] /\
      closing s = 1%nat /\
      RequestQueue.running (requestQueue s) = false
  | inl _ => False
  end.
Proof. vm_compute. repeat split; reflexivity. Qed.

(** [connect()] against a device that reads the configuration and answers
    the probe: derivation is triggered (here for no derivation selected, so
    the bulk request is enqueued). *)
Example connect_ready_device :
  match connect (mkDevice (fun _ _ _ => Within 20 (Resolved (mkAddress "0xabcd" "" None)))
                   (fun _ => Never)
                   (Within 20 (Resolved (mkAppConfiguration (Some "1.9.0")))))
          (open (new_Ledger "usb")) with
  | inl s =>
      status s = STATUS.DERIVING /\
      RequestQueue.pending (requestQueue s) = [DeriveHardwareRequest None]
  | inr _ => False
  end.
Proof. vm_compute. split; reflexivity. Qed.

(** ** Hex normalisation *)

Lemma string_length_append (a b : string) :
  String.length (a ++ b)%string = (String.length a + String.length b)%nat.
Proof.
  induction a as [|c a IH]; [reflexivity|].
  change (String c a ++ b)%string with (String c (a ++ b)%string).
  cbn [String.length]. now rewrite IH.
Qed.

Lemma substringFrom_length n (s : string) :
  String.length (substringFrom n s) = (String.length s - n)%nat.
Proof.
  revert s. induction n as [|n IH]; intros s; cbn.
  - lia.
  - destruct s as [|c rest]; cbn; [reflexivity | apply IH].
Qed.

(** Padding to even length, as done at the end of [normalize]. *)
Lemma padded_even (h : string) :
  (String.length
     (if negb (Nat.eqb (Nat.modulo (String.length h) 2) 0) then ("0" ++ h)%string else h)
   mod 2 = 0)%nat.
Proof.
  destruct (Nat.eqb_spec (String.length h mod 2) 0) as [He|Ho]; cbn [negb]; [exact He|].
  change ("0" ++ h)%string with (String "0" h). cbn [String.length].
  pose proof (Nat.mod_upper_bound (String.length h) 2 ltac:(lia)) as Hb.
  assert (H1 : (String.length h mod 2 = 1)%nat) by lia.
  rewrite (Nat.div_mod_eq (String.length h) 2), H1.
  replace (S (2 * (String.length h / 2) + 1))%nat with ((1 + String.length h / 2) * 2)%nat by lia.
  apply Nat.Div0.mod_mul.
Qed.

Lemma normalize_unprefixed_even (h : string) :
  String.prefix "0x" h = false ->
  (String.length h mod 2 = 0)%nat ->
  normalize (Some h) = h.
Proof.
  intros Hp He. unfold normalize. rewrite Hp, He. reflexivity.
Qed.

(** X1: [normalize] always returns a string of even length; [null] and
    [undefined] give the empty string; the result is never more than one
    character longer than the input and never more than two shorter. *)
Theorem normalize_even_length (hex : option string) :
  (String.length (normalize hex) mod 2 = 0)%nat /\
  normalize None = "" /\
  (forall h, hex = Some h ->
     (String.length h - 2 <= String.length (normalize hex) <= String.length h + 1)%nat).
Proof.
  split; [|split].
  - destruct hex as [h|]; [|reflexivity]. unfold normalize. apply padded_even.
  - reflexivity.
  - intros h ->. unfold normalize.
    set (h' := if String.prefix "0x" h then substringFrom 2 h else h).
    assert (Hh' : (String.length h - 2 <= String.length h' <= String.length h)%nat).
    { subst h'. destruct (String.prefix "0x" h); [rewrite substringFrom_length|]; lia. }
    destruct (negb _); [change ("0" ++ h')%string with (String "0" h')|];
      cbn [String.length]; lia.
Qed.

Lemma normalize_even_length_witness :
  (String.length "0xabc" - 2 <= String.length (normalize (Some "0xabc"))
   <= String.length "0xabc" + 1)%nat.
Proof.
  apply (proj2 (proj2 (normalize_even_length (Some "0xabc"))) "0xabc").
  reflexivity.
Defined.

(** X2: [normalize] leaves a string of even length without the "0x" prefix
    as it is, so it is idempotent whenever its result does not start with
    "0x" again. *)
Theorem normalize_idempotent (hex : option string) :
  String.prefix "0x" (normalize hex) = false ->
  normalize (Some (normalize hex)) = normalize hex.
Proof.
  intros Hp. apply normalize_unprefixed_even; [exact Hp|].
  destruct hex as [h|]; [|reflexivity]. unfold normalize. apply padded_even.
Qed.

Lemma normalize_idempotent_witness :
  normalize (Some (normalize (Some "0xabc"))) = normalize (Some "0xabc").
Proof. apply (normalize_idempotent (Some "0xabc")). reflexivity. Defined.

(** Without that condition it is not: a doubled prefix is removed one at a
    time. *)
Example normalize_doubled_prefix :
  normalize (Some "0x0x12") = "0x12" /\ normalize (Some "0x12") = "12".
Proof. split; reflexivity. Qed.

(** ** Derivation paths *)

Lemma append_inj_l (p a b : string) : (p ++ a)%string = (p ++ b)%string -> a = b.
Proof.
  induction p as [|c p IH]; [trivial|].
  change (String c p ++ a)%string with (String c (p ++ a)%string).
  change (String c p ++ b)%string with (String c (p ++ b)%string).
  intros [= H]. auto.
Qed.

Lemma append_inj_r (q a b : string) : (a ++ q)%string = (b ++ q)%string -> a = b.
Proof.
  revert b. induction a as [|c a IH]; intros [|d b] H.
  - reflexivity.
  - apply (f_equal String.length) in H.
    rewrite !string_length_append in H. cbn [String.length] in H. lia.
  - apply (f_equal String.length) in H.
    rewrite !string_length_append in H. cbn [String.length] in H. lia.
  - change (String c a ++ q)%string with (String c (a ++ q)%string) in H.
    change (String d b ++ q)%string with (String d (b ++ q)%string) in H.
    injection H as -> H. f_equal. auto.
Qed.

Lemma to_uint_nonnil (n : nat) : Nat.to_uint n <> Decimal.Nil.
Proof.
  rewrite <- (DecimalNat.Unsigned.of_to n) at 1.
  rewrite DecimalNat.Unsigned.to_of. apply DecimalFacts.unorm_nonnil.
Qed.

Lemma showIndex_inj (i j : nat) : showIndex i = showIndex j -> i = j.
Proof.
  unfold showIndex. intros H.
  apply (f_equal NilZero.uint_of_string) in H.
  rewrite !NilZero.usu in H by apply to_uint_nonnil.
  injection H as H. now apply DecimalNat.Unsigned.to_uint_inj.
Qed.

Lemma allDigits_string_of_uint (d : Decimal.uint) :
  allDigits (NilEmpty.string_of_uint d) = true.
Proof. induction d; cbn; auto. Qed.

Lemma allDigits_showIndex (i : nat) : allDigits (showIndex i) = true.
Proof.
  unfold showIndex, NilZero.string_of_uint.
  destruct (Nat.to_uint i) eqn:E; try reflexivity;
    rewrite <- E; apply allDigits_string_of_uint.
Qed.

Lemma getPath_injective_index (d : Derivation) (i j : nat) :
  getPath d i = getPath d j -> i = j.
Proof.
  unfold getPath. destruct d; cbn [Derivation_eqb derivationPaths]; intros H.
  - apply append_inj_l, append_inj_r in H. now apply showIndex_inj.
  - apply append_inj_l in H. now apply showIndex_inj.
  - apply append_inj_l in H. now apply showIndex_inj.
  - apply append_inj_l in H. now apply showIndex_inj.
Qed.

(** X3: for a given derivation, two account indices have the same path
    only if they are the same index. *)
Theorem getPath_injective (d : Derivation) (i j : nat) :
  getPath d i = getPath d j <-> i = j.
Proof. split; [apply getPath_injective_index | now intros ->]. Qed.

Lemma getPath_injective_witness : getPath standard 7 <> getPath standard 8.
Proof.
  intros H. apply (proj1 (getPath_injective standard 7 8)) in H. discriminate.
Defined.

Lemma digit_then (c c2 : ascii) (rest : string) :
  allDigits (String c (String c2 rest)) = true ->
  c2 <> "'"%char /\ c2 <> "/"%char.
Proof.
  cbn [allDigits]. intros H.
  apply andb_prop in H as [_ H]. apply andb_prop in H as [H _].
  split; intros ->; discriminate.
Qed.

Lemma live_not_legacy (i j : nat) : getPath live i <> getPath legacy j.
Proof.
  unfold getPath; cbn [Derivation_eqb derivationPaths]. intros H.
  change ("44'/60'/0'/" ++ showIndex j)%string
    with ("44'/60'/" ++ ("0'/" ++ showIndex j))%string in H.
  apply append_inj_l in H.
  pose proof (allDigits_showIndex i) as Hi. pose proof (allDigits_showIndex j) as Hj.
  destruct (showIndex i) as [|c [|c2 I]]; cbv [String.append] in H.
  - discriminate.
  - injection H as _ H. rewrite <- H in Hj. discriminate.
  - injection H as _ H _. destruct (digit_then _ _ _ Hi) as [Hq _]. congruence.
Qed.

Lemma live_standard_zero (i j : nat) :
  getPath live i = getPath standard j -> i = 0%nat /\ j = 0%nat.
Proof.
  unfold getPath; cbn [Derivation_eqb derivationPaths]. intros H.
  change ("44'/60'/0'/0/" ++ showIndex j)%string
    with ("44'/60'/" ++ ("0'/0/" ++ showIndex j))%string in H.
  apply append_inj_l in H.
  pose proof (allDigits_showIndex i) as Hi.
  destruct (showIndex i) as [|c [|c2 I]] eqn:Ei; cbv [String.append] in H.
  - discriminate.
  - injection H as Hc H.
    split; apply showIndex_inj; [rewrite Ei, Hc; reflexivity | rewrite <- H; reflexivity].
  - injection H as _ H _. destruct (digit_then _ _ _ Hi) as [Hq _]. congruence.
Qed.

Lemma legacy_not_standard (i j : nat) : getPath legacy i <> getPath standard j.
Proof.
  unfold getPath; cbn [Derivation_eqb derivationPaths]. intros H.
  change ("44'/60'/0'/0/" ++ showIndex j)%string
    with ("44'/60'/0'/" ++ ("0/" ++ showIndex j))%string in H.
  apply append_inj_l in H.
  pose proof (allDigits_showIndex i) as Hi.
  rewrite H in Hi. discriminate.
Qed.

Lemma testnet_apart (d : Derivation) (i j : nat) :
  d <> testnet -> getPath d i <> getPath testnet j.
Proof.
  intros Hd H. unfold getPath in H.
  destruct d; cbn [Derivation_eqb derivationPaths] in H; try contradiction;
    cbv [String.append] in H; discriminate.
Qed.

(** X4: paths of different derivations coincide in exactly one case: account
    0 of [live] and account 0 of [standard] are the same path. *)
Theorem getPath_shared_only_at_zero (d1 d2 : Derivation) (i j : nat) :
  d1 <> d2 ->
  (getPath d1 i = getPath d2 j <->
   ((d1 = live /\ d2 = standard) \/ (d1 = standard /\ d2 = live))
   /\ i = 0%nat /\ j = 0%nat).
Proof.
  intros Hne. split.
  - intros H.
    destruct d1, d2; try contradiction.
    + exfalso. exact (live_not_legacy _ _ H).
    + split; [left; auto | now apply live_standard_zero].
    + exfalso. apply (testnet_apart live i j); [discriminate | exact H].
    + exfalso. symmetry in H. exact (live_not_legacy _ _ H).
    + exfalso. exact (legacy_not_standard _ _ H).
    + exfalso. apply (testnet_apart legacy i j); [discriminate | exact H].
    + symmetry in H. apply live_standard_zero in H. split; [right; auto | tauto].
    + exfalso. symmetry in H. exact (legacy_not_standard _ _ H).
    + exfalso. apply (testnet_apart standard i j); [discriminate | exact H].
    + exfalso. symmetry in H. apply (testnet_apart live j i); [discriminate | exact H].
    + exfalso. symmetry in H. apply (testnet_apart legacy j i); [discriminate | exact H].
    + exfalso. symmetry in H. apply (testnet_apart standard j i); [discriminate | exact H].
  - intros [[[-> ->]|[-> ->]] [-> ->]]; reflexivity.
Qed.

Lemma getPath_shared_only_at_zero_witness :
  getPath live 0 = getPath standard 0.
Proof.
  apply (getPath_shared_only_at_zero live standard 0 0); [discriminate|].
  split; [left; split; reflexivity | split; reflexivity].
Defined.

(** ** The guarded address fetch *)

(** X5: [getAddress] rejects at once, without a status code, when there is
    no app.  Otherwise a device answer that arrives before 3000 ms decides
    the outcome; with [display] set there is no timer, so any answer however
    late decides it and a silent device leaves the promise pending; without
    [display] a late or missing answer is replaced by a rejection with
    code -1. *)
Theorem getAddress_guard (a : Answer Address) (display : bool) (s : Ledger) :
  (eth s = None ->
     exists e, getAddress a display s = Some (Rejected e) /\ statusCode e = None) /\
  (eth s <> None ->
     (forall ms x, a = Within ms x -> display = true \/ ms < 3000 ->
        getAddress a display s = Some x) /\
     (display = true -> a = Never -> getAddress a display s = None) /\
     (display = false -> a = Never \/ (exists ms x, a = Within ms x /\ 3000 <= ms) ->
        exists e, getAddress a display s = Some (Rejected e) /\ statusCode e = Some (-1))).
Proof.
  unfold getAddress. split.
  - intros ->. eauto.
  - intros Heth. destruct (eth s) as [app|]; [clear Heth | contradiction].
    split; [|split].
    + intros ms x -> [-> | Hms]; cbn; [reflexivity|].
      destruct display; cbn; [reflexivity|]. apply Z.ltb_lt in Hms. now rewrite Hms.
    + intros -> ->. reflexivity.
    + intros -> [-> | [ms [x [-> Hms]]]]; cbn; [eauto|].
      apply Z.ltb_ge in Hms. rewrite Hms. eauto.
Qed.

Lemma getAddress_guard_witness :
  getAddress (Within 60000 (Resolved (mkAddress "0xabcd" "" None))) true
    (open (new_Ledger "usb"))
  = Some (Resolved (mkAddress "0xabcd" "" None)).
Proof.
  apply (proj1 (proj2 (getAddress_guard
                          (Within 60000 (Resolved (mkAddress "0xabcd" "" None))) true
                          (open (new_Ledger "usb")))
                  ltac:(discriminate)) 60000 (Resolved (mkAddress "0xabcd" "" None))).
  - reflexivity.
  - left; reflexivity.
Defined.

(** ** Per-index completions *)

Lemma deriveLive_resume_live a s :
  derivation s = Some live ->
  derivation (deriveLive_resume (Resolved a) s) = Some live /\
  addresses (deriveLive_resume (Resolved a) s) = addresses s ++ [address a] /\
  status (deriveLive_resume (Resolved a) s)
  = (if String.eqb (status s) STATUS.DERIVING then STATUS.OK else status s) /\
  emitted (deriveLive_resume (Resolved a) s) = emitted s ++ ["update"].
Proof.
  intros Hd. unfold deriveLive_resume. rewrite Hd. cbn [option_Derivation_eqb Derivation_eqb].
  destruct (String.eqb (status s) STATUS.DERIVING); cbn; auto.
Qed.

(** X6: while the derivation is [live], successful per-index completions
    append their addresses in the order in which they complete and emit one
    ['update'] each; the first one takes a session that is DERIVING to OK,
    and a session in any other status keeps its status. *)
Theorem completions_append (results : list Address) (s : Ledger) :
  derivation s = Some live ->
  addresses (completions results s) = addresses s ++ map address results /\
  emitted (completions results s) = emitted s ++ map (fun _ => "update") results /\
  (status s = STATUS.DERIVING -> results <> [] ->
     status (completions results s) = STATUS.OK) /\
  (status s <> STATUS.DERIVING -> status (completions results s) = status s).
Proof.
  revert s. induction results as [|a rest IH]; intros s Hd.
  - cbn. rewrite !app_nil_r. repeat split; congruence.
  - destruct (deriveLive_resume_live a s Hd) as [Hd' [Ha [Hs He]]].
    destruct (IH _ Hd') as [IHa [IHe [IHd IHo]]].
    unfold completions in *. cbn [fold_left map].
    rewrite IHa, IHe, Ha, He, <- !app_assoc. cbn [app].
    split; [reflexivity|]. split; [reflexivity|]. split.
    + intros Hder _. rewrite IHo; rewrite Hs, Hder; [reflexivity | discriminate].
    + intros Hnd. apply String.eqb_neq in Hnd.
      rewrite IHo; rewrite Hs, Hnd; [reflexivity | now apply String.eqb_neq].
Qed.

Lemma completions_append_witness :
  addresses (completions [mkAddress "0xa0" "" None; mkAddress "0xa1" "" None]
               (deriveAddresses liveSession))
  = addresses (deriveAddresses liveSession) ++ ["0xa0"; "0xa1"].
Proof.
  apply (completions_append [mkAddress "0xa0" "" None; mkAddress "0xa1" "" None]
           (deriveAddresses liveSession)).
  reflexivity.
Defined.

(** ** One poller at a time *)

Lemma singlePoller_ext s s' :
  timers s' = timers s -> statusPoller s' = statusPoller s ->
  singlePoller s -> singlePoller s'.
Proof. unfold singlePoller. intros -> ->. auto. Qed.

(** Cancelling the timer under [statusPoller] and scheduling a new one under
    a handle that becomes [statusPoller] keeps the poller single. *)
Lemma singlePoller_rearmed s s' cb nt :
  singlePoller s ->
  timers s' = <[nt := cb]> (delete (statusPoller s) (timers s)) ->
  statusPoller s' = nt ->
  singlePoller s'.
Proof.
  unfold singlePoller. intros Hs Ht Hp h f l Hh. rewrite Ht in Hh. rewrite Hp.
  destruct (decide (h = nt)) as [->|Hne]; [reflexivity|].
  rewrite lookup_insert_ne in Hh by congruence.
  destruct (decide (h = statusPoller s)) as [->|Hne'].
  - now rewrite lookup_delete_eq in Hh.
  - rewrite lookup_delete_ne in Hh by congruence. apply Hs in Hh. contradiction.
Qed.

Lemma singlePoller_updateStatus st s : singlePoller s -> singlePoller (updateStatus st s).
Proof.
  intros Hs.
  destruct (String.eqb_spec st STATUS.OK) as [->|Hok].
  - rewrite updateStatus_OK. eapply singlePoller_rearmed; [exact Hs | reflexivity..].
  - destruct (String.eqb_spec st STATUS.LOCKED) as [->|Hl].
    + rewrite updateStatus_LOCKED. eapply singlePoller_rearmed; [exact Hs | reflexivity..].
    + rewrite updateStatus_other by assumption. exact Hs.
Qed.

Lemma singlePoller_cleared s :
  singlePoller s ->
  forall h f l, delete (statusPoller s) (timers s) !! h <> Some (PollTick f l).
Proof.
  unfold singlePoller. intros Hs h f l Hh.
  destruct (decide (h = statusPoller s)) as [->|Hne].
  - now rewrite lookup_delete_eq in Hh.
  - rewrite lookup_delete_ne in Hh by congruence. apply Hs in Hh. contradiction.
Qed.

Lemma timers_close s : timers (close s) = delete (statusPoller s) (timers s).
Proof. unfold close; cbn -[delete]. destruct (eth s); reflexivity. Qed.

Lemma statusPoller_close s : statusPoller (close s) = statusPoller s.
Proof. unfold close; cbn. destruct (eth s); reflexivity. Qed.

Lemma singlePoller_close s : singlePoller s -> singlePoller (close s).
Proof.
  intros Hs h f l Hh. exfalso. rewrite timers_close in Hh.
  exact (singlePoller_cleared s Hs h f l Hh).
Qed.

Lemma singlePoller_handleError err s : singlePoller s -> singlePoller (handleError err s).
Proof.
  intros Hs.
  destruct (handleError_cases err s) as [[_ [_ ->]]|[[_ ->]|[[_ [_ ->]]|[_ [_ ->]]]]].
  - apply (singlePoller_ext (updateStatus STATUS.LOCKED s)); auto using singlePoller_updateStatus.
  - exact Hs.
  - apply (singlePoller_ext (updateStatus STATUS.WRONG_APP s)); auto using singlePoller_updateStatus.
  - apply singlePoller_close.
    apply (singlePoller_ext (updateStatus STATUS.NEEDS_RECONNECTION s));
      auto using singlePoller_updateStatus.
Qed.

Lemma timers_pollTick f l s :
  timers (pollTick f l s) = <[nextTimer s := PollTick f (status s)]> (timers s) /\
  statusPoller (pollTick f l s) = nextTimer s.
Proof.
  unfold pollTick.
  destruct (RequestQueue.peekBack (requestQueue s)) as [r|];
    [destruct (negb _)|]; split; reflexivity.
Qed.

Lemma singlePoller_fireTimer h s : singlePoller s -> singlePoller (fireTimer h s).
Proof.
  intros Hs. unfold fireTimer.
  destruct (timers s !! h) as [[|f l]|] eqn:Hh; [| |exact Hs].
  - intros h' f' l' Hh'. cbn -[delete lookup] in *.
    destruct (decide (h' = h)) as [->|Hne].
    + now rewrite lookup_delete_eq in Hh'.
    + rewrite lookup_delete_ne in Hh' by congruence. now apply Hs in Hh'.
  - pose proof (Hs _ _ _ Hh) as ->.
    destruct (timers_pollTick f l (set_timers (delete (statusPoller s) (timers s)) (nextTimer s) s))
      as [Ht Hp].
    eapply singlePoller_rearmed; [exact Hs | exact Ht | exact Hp].
Qed.

Lemma singlePoller_checkDeviceStatus a s :
  singlePoller s -> singlePoller (snd (checkDeviceStatus a s)).
Proof.
  intros Hs. unfold checkDeviceStatus, then_.
  destruct (check a s) as [[code|e]|]; cbn [snd]; try exact Hs.
  unfold checkDeviceStatus_then.
  destruct (code =? 0); cbn [snd].
  - destruct (String.eqb (status s) STATUS.LOCKED); cbn [snd]; [|exact Hs].
    rewrite updateStatus_OK.
    eapply singlePoller_rearmed; [exact Hs | | reflexivity].
    cbn -[insert delete]. f_equal.
    apply map_eq. intros i. destruct (decide (i = statusPoller s)) as [->|Hne].
    + now rewrite !lookup_delete_eq.
    + now rewrite !lookup_delete_ne by congruence.
  - now apply singlePoller_handleError.
Qed.

Lemma singlePoller_deriveAddresses s : singlePoller s -> singlePoller (deriveAddresses s).
Proof.
  intros Hs. unfold deriveAddresses.
  destruct (option_Derivation_eqb _ _); exact Hs.
Qed.

Lemma singlePoller_execute dev r s ran :
  singlePoller s -> execute dev r s = Some ran -> singlePoller (after ran).
Proof.
  intros Hs.
  assert (Hok : forall x, singlePoller x ->
            singlePoller (if String.eqb (status x) STATUS.DERIVING
                          then updateStatus STATUS.OK x else x)).
  { intros x Hx. destruct (String.eqb _ _); [now apply singlePoller_updateStatus | exact Hx]. }
  destruct r as [lastStatus|i|target|index currentAddress display cb]; unfold execute.
  - destruct (negb _).
    + intros [= <-]. exact Hs.
    + pose proof (singlePoller_checkDeviceStatus
                    (dev_getAddress dev probePath false false) s Hs) as Hc.
      destruct (checkDeviceStatus _ s) as [[[code|e]|] s']; cbn in Hc;
        intros [= <-]; exact Hc.
  - unfold deriveLive_begin.
    destruct (eth s); [destruct (derivation s)|];
      try (intros [= <-]; now apply singlePoller_handleError).
    destruct (dev_getAddress dev _ false false) as [ms [a|e]|]; cbn [race]; intros [= <-];
      cbn [after deriveLive_resume].
    + destruct (option_Derivation_eqb _ _); [|exact Hs].
      eapply singlePoller_ext; [| | exact (Hok s Hs)]; reflexivity.
    + now apply singlePoller_handleError.
  - unfold deriveHardware_begin.
    destruct (eth s); [destruct (derivation s)|];
      try (intros [= <-]; now apply singlePoller_handleError).
    destruct (dev_deriveAddresses dev _) as [ms [addrs|e]|]; cbn [race]; intros [= <-];
      cbn [after deriveHardware_resume].
    + destruct (option_Derivation_eqb _ _); [|exact Hs].
      eapply singlePoller_ext; [| | exact (Hok s Hs)]; reflexivity.
    + now apply singlePoller_handleError.
  - destruct (verifyAddress_begin index s).
    + intros [= <-]. exact Hs.
    + destruct (getAddress _ display s) as [x|]; intros [= <-].
      apply verifyAddress_resume_preserves; [|exact Hs].
      intros e y Hy. now apply singlePoller_handleError.
Qed.

(** X7: at most one poller tick is ever scheduled, and it is the one whose
    handle [statusPoller] holds.  This is so for a new session and is kept
    by [updateStatus], the timer firing, [handleError], [close],
    [checkDeviceStatus], [deriveAddresses] and every request's [execute]. *)
Theorem singlePoller_invariant :
  (forall path, singlePoller (new_Ledger path)) /\
  (forall s, singlePoller s ->
     (forall st, singlePoller (updateStatus st s)) /\
     (forall h, singlePoller (fireTimer h s)) /\
     (forall err, singlePoller (handleError err s)) /\
     singlePoller (close s) /\
     (forall a, singlePoller (snd (checkDeviceStatus a s))) /\
     singlePoller (deriveAddresses s) /\
     (forall dev r ran, execute dev r s = Some ran -> singlePoller (after ran))).
Proof.
  split.
  - intros path h f l Hh. unfold new_Ledger in Hh. cbn -[lookup] in Hh.
    destruct (decide (h = 0%nat)) as [->|Hne].
    + rewrite lookup_singleton_eq in Hh. discriminate.
    + rewrite lookup_singleton_ne in Hh by congruence. discriminate.
  - intros s Hs. repeat split.
    + intros st. now apply singlePoller_updateStatus.
    + intros h. now apply singlePoller_fireTimer.
    + intros err. now apply singlePoller_handleError.
    + now apply singlePoller_close.
    + intros a. now apply singlePoller_checkDeviceStatus.
    + now apply singlePoller_deriveAddresses.
    + intros dev r ran. now apply singlePoller_execute.
Qed.

Lemma singlePoller_invariant_witness :
  singlePoller (updateStatus STATUS.LOCKED (updateStatus STATUS.OK (new_Ledger "usb"))).
Proof.
  destruct singlePoller_invariant as [Hnew Hstep].
  apply (Hstep (updateStatus STATUS.OK (new_Ledger "usb"))).
  apply (Hstep (new_Ledger "usb")). apply Hnew.
Defined.

(** ** Ticks do not pile up probes *)

Lemma fireTimer_poller_step f l s :
  timers s !! statusPoller s = Some (PollTick f l) ->
  RequestQueue.pending (requestQueue (fireTimer (statusPoller s) s))
  = RequestQueue.pending (requestQueue s)
    ++ (if tailIsProbe s then [] else [CheckDeviceStatusRequest l]) /\
  tailIsProbe (fireTimer (statusPoller s) s) = true /\
  timers (fireTimer (statusPoller s) s) !! statusPoller (fireTimer (statusPoller s) s)
  = Some (PollTick f (status s)).
Proof.
  intros Hh. unfold fireTimer. rewrite Hh. unfold pollTick, tailIsProbe.
  cbn [requestQueue set_timers].
  destruct (RequestQueue.peekBack (requestQueue s)) as [r|] eqn:Hback.
  - destruct (String.eqb (type r) "checkDeviceStatus") eqn:Ht; cbn [negb].
    + split; [cbn; now rewrite app_nil_r|]. split.
      * cbn. rewrite Hback. exact Ht.
      * cbn -[insert delete lookup]. apply lookup_insert_eq.
    + split; [reflexivity|]. split.
      * cbn. unfold RequestQueue.peekBack; cbn. now rewrite last_snoc.
      * cbn -[insert delete lookup]. apply lookup_insert_eq.
  - split; [reflexivity|]. split.
    + cbn. unfold RequestQueue.peekBack; cbn. now rewrite last_snoc.
    + cbn -[insert delete lookup]. apply lookup_insert_eq.
Qed.

Lemma ticks_quiet n : forall f l s,
  timers s !! statusPoller s = Some (PollTick f l) ->
  tailIsProbe s = true ->
  RequestQueue.pending (requestQueue (ticks n s)) = RequestQueue.pending (requestQueue s) /\
  activePoller (ticks n s) = Some f.
Proof.
  induction n as [|n IH]; intros f l s Hh Htail; cbn [ticks].
  - split; [reflexivity|]. unfold activePoller. now rewrite Hh.
  - destruct (fireTimer_poller_step f l s Hh) as [Hp [Ht Hh']].
    destruct (IH _ _ _ Hh' Ht) as [IHp IHa].
    rewrite IHp, Hp, Htail, app_nil_r. auto.
Qed.

(** X8: however often the poller's timer fires while the queue begins
    nothing, at most one probe is added: none if the request at the tail of
    the queue is a probe already, one otherwise; and the poller stays armed
    at its frequency. *)
Theorem ticks_add_at_most_one_probe (n : nat) (f : Z) (l : string) (s : Ledger) :
  timers s !! statusPoller s = Some (PollTick f l) ->
  RequestQueue.pending (requestQueue (ticks (S n) s))
  = RequestQueue.pending (requestQueue s)
    ++ (if tailIsProbe s then [] else [CheckDeviceStatusRequest l]) /\
  activePoller (ticks (S n) s) = Some f.
Proof.
  intros Hh. cbn [ticks].
  destruct (fireTimer_poller_step f l s Hh) as [Hp [Ht Hh']].
  destruct (ticks_quiet n _ _ _ Hh' Ht) as [Hq Ha].
  rewrite Hq, Hp. auto.
Qed.

Lemma ticks_add_at_most_one_probe_witness :
  RequestQueue.pending
    (requestQueue (ticks 4 (updateStatus STATUS.LOCKED (open (new_Ledger "usb")))))
  = [CheckDeviceStatusRequest STATUS.LOCKED].
Proof.
  apply (ticks_add_at_most_one_probe 3 500 STATUS.LOCKED
           (updateStatus STATUS.LOCKED (open (new_Ledger "usb")))).
  reflexivity.
Defined.

(** ** Closing *)

Lemma eth_close s : eth (close s) = eth s.
Proof. unfold close; cbn. destruct (eth s) eqn:E; cbn; congruence. Qed.

Lemma derivation_close s : derivation (close s) = derivation s.
Proof. unfold close; cbn. destruct (eth s); reflexivity. Qed.

(** X9: [close()] cancels the timer under [statusPoller], so no poller is
    active afterwards, and leaves status, addresses and derivation alone.
    With an app open it stops before ['close'] is emitted and still holds
    the app; once the transport has closed the app is dropped and ['close']
    is emitted.  With no app it emits ['close'] at once.  Either way
    ['close'] is emitted exactly once per call. *)
Theorem close_effects (s : Ledger) :
  timers (close s) !! statusPoller s = None /\
  activePoller (close s) = None /\
  status (close s) = status s /\
  addresses (close s) = addresses s /\
  derivation (close s) = derivation s /\
  (eth s = None -> emitted (close s) = emitted s ++ ["close"]) /\
  (eth s <> None ->
     emitted (close s) = emitted s /\
     eth (close s) = eth s /\
     eth (close_resume (close s)) = None /\
     closing (close_resume (close s)) = closing s /\
     emitted (close_resume (close s)) = emitted s ++ ["close"]).
Proof.
  split; [rewrite timers_close; apply lookup_delete_eq|].
  split; [unfold activePoller; rewrite statusPoller_close, timers_close, lookup_delete_eq;
          reflexivity|].
  split; [apply status_close|]. split; [apply addresses_close|].
  split; [apply derivation_close|]. split.
  - intros He. rewrite emitted_close, He. reflexivity.
  - intros He. rewrite emitted_close, eth_close.
    unfold close_resume, close_finish. cbn [eth closing emitted emit set_eth set_closing].
    rewrite closing_close, emitted_close.
    destruct (eth s); [|contradiction]. rewrite app_nil_r. repeat split.
Qed.

Lemma close_effects_witness :
  emitted (close_resume (close (open (new_Ledger "usb")))) = ["close"] /\
  emitted (close (new_Ledger "usb")) = ["close"].
Proof.
  split.
  - destruct (close_effects (open (new_Ledger "usb"))) as [_ [_ [_ [_ [_ [_ H]]]]]].
    apply H. discriminate.
  - destruct (close_effects (new_Ledger "usb")) as [_ [_ [_ [_ [_ [H _]]]]]].
    apply H. reflexivity.
Defined.

(** ** The error path, further *)

Lemma eth_handleError err s : eth (handleError err s) = eth s.
Proof.
  destruct (handleError_cases err s) as [[_ [_ ->]]|[[_ ->]|[[_ [_ ->]]|[_ [_ ->]]]]];
    try rewrite eth_close; try rewrite eth_emit; try apply eth_updateStatus; reflexivity.
Qed.

Lemma derivation_handleError err s : derivation (handleError err s) = derivation s.
Proof.
  destruct (handleError_cases err s) as [[_ [_ ->]]|[[_ ->]|[[_ [_ ->]]|[_ [_ ->]]]]];
    try rewrite derivation_close;
    try (change (derivation (emit ?ev ?x)) with (derivation x));
    try apply derivation_updateStatus; reflexivity.
Qed.

(** X10: handling the same error a second time changes nothing: no further
    event, no second [close()]. *)
Theorem handleError_idempotent (err : DeviceError) (s : Ledger) :
  handleError err (handleError err s) = handleError err s.
Proof.
  destruct (handleError_cases err (handleError err s))
    as [[Ha [Hs _]]|[[_ H]|[[_ [Hs _]]|[_ [Hs _]]]]].
  - rewrite status_handleError, (classify_asleep _ Ha) in Hs. contradiction.
  - exact H.
  - rewrite status_handleError in Hs.
    destruct (classify_range err) as [[_ Hc]|[[Hn [Ha Hc]]|[Hn [Ha Hc]]]].
    + contradiction.
    + unfold handleError at 1. rewrite Ha, status_handleError, Hc. reflexivity.
    + unfold handleError at 1. rewrite Ha, status_handleError.
      cbn [andb]. now rewrite String.eqb_refl.
  - rewrite status_handleError in Hs.
    unfold handleError at 1. rewrite status_handleError.
    destruct (isDeviceAsleep err) eqn:Ha.
    + rewrite (classify_asleep _ Ha), String.eqb_refl. cbn. reflexivity.
    + cbn [andb]. now rewrite String.eqb_refl.
Qed.

Lemma handleError_keeps_data_ready err s : isReady (handleError err s) = false.
Proof.
  unfold isReady. rewrite status_handleError.
  destruct (classify_range err) as [[_ ->]|[[_ [_ ->]]|[_ [_ ->]]]]; reflexivity.
Qed.

(** X11: [handleError] never touches the address list, the derivation or
    the app handle, and whatever the error the session is not ready
    afterwards: its status is LOCKED, WRONG_APP or NEEDS_RECONNECTION. *)
Theorem handleError_keeps_data (err : DeviceError) (s : Ledger) :
  addresses (handleError err s) = addresses s /\
  derivation (handleError err s) = derivation s /\
  eth (handleError err s) = eth s /\
  isReady (handleError err s) = false /\
  (status (handleError err s) = STATUS.LOCKED \/
   status (handleError err s) = STATUS.WRONG_APP \/
   status (handleError err s) = STATUS.NEEDS_RECONNECTION).
Proof.
  split; [apply addresses_handleError|]. split; [apply derivation_handleError|].
  split; [apply eth_handleError|].
  split; [apply handleError_keeps_data_ready|].
  rewrite status_handleError.
  destruct (classify_range err) as [[_ ->]|[[_ [_ ->]]|[_ [_ ->]]]]; auto.
Qed.

(** ** An unresponsive device *)

Lemma activePoller_close s : activePoller (close s) = None.
Proof.
  unfold activePoller. now rewrite statusPoller_close, timers_close, lookup_delete_eq.
Qed.

Lemma handleError_reconnection err s :
  getStatusForError err = STATUS.NEEDS_RECONNECTION ->
  status s <> STATUS.NEEDS_RECONNECTION ->
  handleError err s = close (emit "update" (updateStatus STATUS.NEEDS_RECONNECTION s)).
Proof.
  intros Hc Hs.
  destruct (handleError_cases err s) as [[Ha _]|[[He _]|[[Hw _]|[_ [_ H]]]]].
  - rewrite (classify_asleep _ Ha) in Hc. discriminate.
  - congruence.
  - rewrite Hw in Hc. discriminate.
  - exact H.
Qed.

(** X12: when the device does not answer a probe within 3000 ms,
    [checkDeviceStatus] resolves with -1 and, unless the session is in
    NEEDS_RECONNECTION already, the status becomes NEEDS_RECONNECTION, one
    ['update'] is emitted, [close()] is called and no poller is left. *)
Theorem checkDeviceStatus_unresponsive (a : Answer Address) (s : Ledger) :
  eth s <> None ->
  a = Never \/ (exists ms x, a = Within ms x /\ 3000 <= ms) ->
  status s <> STATUS.NEEDS_RECONNECTION ->
  fst (checkDeviceStatus a s) = Some (Resolved (-1)) /\
  status (snd (checkDeviceStatus a s)) = STATUS.NEEDS_RECONNECTION /\
  emitted (snd (checkDeviceStatus a s)) = emitted s ++ ["update"] /\
  closeCalled s (snd (checkDeviceStatus a s)) = true /\
  activePoller (snd (checkDeviceStatus a s)) = None.
Proof.
  intros Heth Hlate Hs.
  assert (Hcheck : check a s = Some (Resolved (-1))).
  { unfold check, probe. destruct (eth s); [|contradiction].
    destruct Hlate as [->|[ms [x [-> Hms]]]]; [reflexivity|].
    apply Z.ltb_ge in Hms. destruct x; cbn; now rewrite Hms. }
  unfold checkDeviceStatus, then_. rewrite Hcheck.
  unfold checkDeviceStatus_then. cbn [Z.eqb fst snd].
  rewrite (handleError_reconnection (errorOfCode (-1)) s eq_refl Hs).
  split; [reflexivity|]. split; [now rewrite status_close|]. split.
  - rewrite emitted_close, eth_emit, eth_updateStatus, emitted_emit, emitted_updateStatus.
    destruct (eth s); [now rewrite app_nil_r | contradiction].
  - split; [apply closeCalled_close_emit_updateStatus | apply activePoller_close].
Qed.

Lemma checkDeviceStatus_unresponsive_witness :
  status (snd (checkDeviceStatus Never (updateStatus STATUS.OK (open (new_Ledger "usb")))))
  = STATUS.NEEDS_RECONNECTION.
Proof.
  apply (checkDeviceStatus_unresponsive Never (updateStatus STATUS.OK (open (new_Ledger "usb")))).
  - discriminate.
  - left; reflexivity.
  - discriminate.
Defined.

(** ** How [connect()] ends *)




(** ** Triggering derivation *)

Lemma pending_enqueueRequests requests s :
  RequestQueue.pending (requestQueue (enqueueRequests requests s))
  = RequestQueue.pending (requestQueue s) ++ requests /\
  RequestQueue.running (requestQueue (enqueueRequests requests s))
  = RequestQueue.running (requestQueue s) /\
  RequestQueue.current (requestQueue (enqueueRequests requests s))
  = RequestQueue.current (requestQueue s).
Proof.
  unfold enqueueRequests. cbn [requestQueue set_requestQueue].
  generalize (requestQueue s) as q.
  induction requests as [|r rest IH]; intros q; cbn [fold_left].
  - now rewrite app_nil_r.
  - destruct (IH (RequestQueue.add r q)) as [-> [-> ->]]. cbn.
    now rewrite <- app_assoc.
Qed.

(** X14: [deriveAddresses()] drops the address list and every request that
    was pending, whatever its kind, and leaves the request being executed,
    the derivation and the poller's timer as they were.  The status is
    DERIVING, one ['update'] is emitted, and the queue holds one request per
    index below [accountLimit] for the [live] derivation, and otherwise one
    bulk request that captured the current derivation. *)
Theorem deriveAddresses_resets (s : Ledger) :
  addresses (deriveAddresses s) = [] /\
  status (deriveAddresses s) = STATUS.DERIVING /\
  emitted (deriveAddresses s) = emitted s ++ ["update"] /\
  derivation (deriveAddresses s) = derivation s /\
  timers (deriveAddresses s) = timers s /\
  statusPoller (deriveAddresses s) = statusPoller s /\
  RequestQueue.current (requestQueue (deriveAddresses s))
  = RequestQueue.current (requestQueue s) /\
  RequestQueue.pending (requestQueue (deriveAddresses s))
  = match derivation s with
    | Some live => map DeriveLiveRequest (seq 0 (accountLimit s))
    | other => [DeriveHardwareRequest other]
    end.
Proof.
  split; [apply addresses_deriveAddresses|].
  split; [unfold deriveAddresses; destruct (option_Derivation_eqb _ _); reflexivity|].
  split; [unfold deriveAddresses; destruct (option_Derivation_eqb _ _); reflexivity|].
  split; [apply derivation_deriveAddresses|].
  split; [unfold deriveAddresses; destruct (option_Derivation_eqb _ _); reflexivity|].
  split; [unfold deriveAddresses; destruct (option_Derivation_eqb _ _); reflexivity|].
  unfold deriveAddresses, deriveLiveAddresses, deriveHardwareAddresses.
  set (s0 := emit "update" _).
  assert (Hd : derivation s0 = derivation s) by reflexivity.
  assert (Hl : accountLimit s0 = accountLimit s) by reflexivity.
  assert (Hp : RequestQueue.pending (requestQueue s0) = []) by reflexivity.
  assert (Hc : RequestQueue.current (requestQueue s0) = RequestQueue.current (requestQueue s))
    by reflexivity.
  rewrite Hd, Hl.
  destruct (derivation s) as [[| | |]|]; cbn [option_Derivation_eqb Derivation_eqb];
    match goal with
    | |- context [enqueueRequests ?l s0] =>
        destruct (pending_enqueueRequests l s0) as [-> [_ ->]]
    end; rewrite Hp, Hc; split; reflexivity.
Qed.

(** ** Per-index derivation through the queue *)

Lemma find_key_in_seq (p : nat -> bool) (k : nat) :
  (forall i, p i = true <-> i = k) ->
  forall n a, (a <= k < a + n)%nat -> List.find p (seq a n) = Some k.
Proof.
  intros Hp. induction n as [|n IH]; intros a Hk; [lia|].
  cbn [seq List.find]. destruct (p a) eqn:Hpa.
  - apply Hp in Hpa. now subst.
  - apply IH. destruct (Nat.eq_dec a k) as [->|Hne]; [|lia].
    assert (p k = true) by now apply Hp. congruence.
Qed.

Lemma liveDevice_answers n answers k display chain :
  (k < n)%nat ->
  dev_getAddress (liveDevice n answers) (getPath live k) display chain = Within 0 (answers k).
Proof.
  intros Hk. unfold liveDevice. cbn [dev_getAddress].
  rewrite (find_key_in_seq _ k); [reflexivity | | lia].
  intros i. rewrite String.eqb_eq. split.
  - intros H. symmetry. now apply (getPath_injective_index live).
  - now intros ->.
Qed.

Lemma deriveLive_resume_frame a s :
  eth (deriveLive_resume (Resolved a) s) = eth s /\
  requestQueue (deriveLive_resume (Resolved a) s) = requestQueue s.
Proof.
  unfold deriveLive_resume.
  destruct (option_Derivation_eqb _ _); [|auto].
  destruct (String.eqb (status s) STATUS.DERIVING); split; reflexivity.
Qed.

(** One per-index request at the head of a running, idle queue is begun,
    answered and settled. *)
Lemma runNext_live_step n answers k rest x :
  (k < n)%nat ->
  eth x <> None ->
  derivation x = Some live ->
  RequestQueue.running (requestQueue x) = true ->
  RequestQueue.current (requestQueue x) = None ->
  RequestQueue.pending (requestQueue x) = DeriveLiveRequest k :: rest ->
  exists x',
    runNext (liveDevice n (fun i => Resolved (answers i))) x = Some x' /\
    eth x' = eth x /\
    derivation x' = Some live /\
    RequestQueue.running (requestQueue x') = true /\
    RequestQueue.current (requestQueue x') = None /\
    RequestQueue.pending (requestQueue x') = rest /\
    addresses x' = addresses x ++ [address (answers k)] /\
    status x' = (if String.eqb (status x) STATUS.DERIVING then STATUS.OK else status x).
Proof.
  intros Hk Heth Hd Hrun Hcur Hpend.
  unfold runNext, beginNext, RequestQueue.next. rewrite Hrun, Hcur, Hpend.
  set (x0 := set_requestQueue _ x).
  assert (Hd0 : derivation x0 = Some live) by exact Hd.
  unfold execute, deriveLive_begin.
  change (eth x0) with (eth x). change (derivation x0) with (derivation x).
  destruct (eth x) as [app|] eqn:Ee; [|contradiction]. rewrite Hd.
  rewrite (liveDevice_answers n _ k false false Hk). cbn [race after].
  destruct (deriveLive_resume_live (answers k) x0 Hd0) as [Hd' [Ha [Hs _]]].
  destruct (deriveLive_resume_frame (answers k) x0) as [He Hq].
  eexists. split; [reflexivity|].
  cbn [eth derivation requestQueue addresses status set_requestQueue].
  rewrite He, Hd', Hq, Ha, Hs. subst x0. cbn. rewrite Ee. repeat split.
Qed.

Lemma drain_live n answers : forall m k x,
  (k + m <= n)%nat ->
  eth x <> None ->
  derivation x = Some live ->
  RequestQueue.running (requestQueue x) = true ->
  RequestQueue.current (requestQueue x) = None ->
  RequestQueue.pending (requestQueue x) = map DeriveLiveRequest (seq k m) ->
  addresses (drain (liveDevice n (fun i => Resolved (answers i))) m x)
  = addresses x ++ map (fun i => address (answers i)) (seq k m) /\
  RequestQueue.pending
    (requestQueue (drain (liveDevice n (fun i => Resolved (answers i))) m x)) = [] /\
  (m <> 0%nat -> status x = STATUS.DERIVING \/ status x = STATUS.OK ->
     status (drain (liveDevice n (fun i => Resolved (answers i))) m x) = STATUS.OK).
Proof.
  induction m as [|m IH]; intros k x Hle Heth Hd Hrun Hcur Hpend.
  - cbn. rewrite app_nil_r. repeat split; [exact Hpend | congruence].
  - cbn [seq map] in Hpend.
    destruct (runNext_live_step n answers k _ x ltac:(lia) Heth Hd Hrun Hcur Hpend)
      as [x' [Hnext [He' [Hd' [Hr' [Hc' [Hp' [Ha' Hs']]]]]]]].
    cbn [drain]. rewrite Hnext.
    destruct (IH (S k) x' ltac:(lia) ltac:(congruence) Hd' Hr' Hc' Hp') as [IHa [IHp IHs]].
    rewrite IHa, Ha', <- app_assoc. cbn [seq map app].
    split; [reflexivity|]. split; [exact IHp|].
    intros _ Hst.
    assert (Hok : status x' = STATUS.OK).
    { rewrite Hs'. destruct Hst as [-> | ->]; reflexivity. }
    destruct m as [|m]; [cbn; exact Hok|].
    apply IHs; [discriminate | now right].
Qed.

(** X15: per-index derivation in which every device call succeeds, run from
    a started and idle queue with no timer firing in between: whatever
    [accountLimit] is, the final list holds the address of every index below
    it in ascending index order, nothing is left pending and (for a limit
    above 0) the status is OK. *)
Theorem deriveLive_all_succeed (s : Ledger) (answers : nat -> Address) :
  eth s <> None ->
  derivation s = Some live ->
  RequestQueue.running (requestQueue s) = true ->
  RequestQueue.current (requestQueue s) = None ->
  addresses (run (liveDevice (accountLimit s) (fun i => Resolved (answers i)))
               (deriveAddresses s))
  = map (fun i => address (answers i)) (seq 0 (accountLimit s)) /\
  RequestQueue.pending
    (requestQueue (run (liveDevice (accountLimit s) (fun i => Resolved (answers i)))
                     (deriveAddresses s))) = [] /\
  (accountLimit s <> 0%nat ->
   status (run (liveDevice (accountLimit s) (fun i => Resolved (answers i)))
             (deriveAddresses s)) = STATUS.OK).
Proof.
  intros Heth Hd Hrun Hcur.
  assert (Hpend : RequestQueue.pending (requestQueue (deriveAddresses s))
                  = map DeriveLiveRequest (seq 0 (accountLimit s))).
  { unfold deriveAddresses, deriveLiveAddresses.
    set (s0 := emit "update" _).
    change (derivation s0) with (derivation s). rewrite Hd.
    cbn [option_Derivation_eqb Derivation_eqb].
    destruct (pending_enqueueRequests
                (map DeriveLiveRequest (seq 0 (accountLimit s0))) s0) as [-> _].
    reflexivity. }
  assert (Hfacts : eth (deriveAddresses s) = eth s /\
                   RequestQueue.running (requestQueue (deriveAddresses s)) = true /\
                   RequestQueue.current (requestQueue (deriveAddresses s)) = None /\
                   status (deriveAddresses s) = STATUS.DERIVING /\
                   addresses (deriveAddresses s) = []).
  { unfold deriveAddresses, deriveLiveAddresses.
    set (s0 := emit "update" _).
    change (derivation s0) with (derivation s). rewrite Hd.
    cbn [option_Derivation_eqb Derivation_eqb].
    destruct (pending_enqueueRequests
                (map DeriveLiveRequest (seq 0 (accountLimit s0))) s0) as [_ [Hr Hc]].
    rewrite Hr, Hc. subst s0. cbn. auto. }
  destruct Hfacts as [He [Hr [Hc [Hs Ha]]]].
  unfold run. rewrite Hpend, length_map, length_seq.
  destruct (drain_live (accountLimit s) answers (accountLimit s) 0 (deriveAddresses s)
              ltac:(lia) ltac:(congruence)
              ltac:(now rewrite derivation_deriveAddresses) Hr Hc Hpend)
    as [Hadd [Hp Hst]].
  rewrite Hadd, Ha. cbn [app]. split; [reflexivity|]. split; [exact Hp|].
  intros Hn. apply Hst; [exact Hn | now left].
Qed.

Lemma deriveLive_all_succeed_witness :
  addresses (run (liveDevice (accountLimit liveSession)
                    (fun i => Resolved (mkAddress (showIndex i) "" None)))
               (deriveAddresses liveSession))
  = map (fun i => showIndex i) (seq 0 (accountLimit liveSession)).
Proof.
  apply (deriveLive_all_succeed liveSession (fun i => mkAddress (showIndex i) "" None)).
  - discriminate.
  - reflexivity.
  - reflexivity.
  - reflexivity.
Defined.

(** ** Unlocking and bulk derivation through the queue *)

















(** The tick of the 500 ms poller that fires while the probe is suspended
    on the device leaves a second probe pending behind the one that
    unlocks. *)
Example tick_during_probe :
  (RequestQueue.pending <$>
     (requestQueue <$>
        runNextAmid (answering "0xabcd") [2%nat]
          (fireTimer (statusPoller (updateStatus STATUS.LOCKED (open (new_Ledger "usb"))))
             (updateStatus STATUS.LOCKED (open (new_Ledger "usb"))))))
  = Some [CheckDeviceStatusRequest STATUS.LOCKED].
Proof. vm_compute. reflexivity. Qed.




(** Connected and at OK, the 5000 ms poller is active when bulk derivation
    is triggered; its tick firing during the device call leaves a probe
    pending behind the derivation. *)
Example tick_during_derivation :
  let dev := mkDevice (fun _ _ _ => Never)
               (fun _ => Within 40 (Resolved ["0x01"; "0x02"])) Never in
  let s := updateStatus STATUS.OK (set_derivation (Some legacy) (open (new_Ledger "usb"))) in
  (RequestQueue.pending <$>
     (requestQueue <$> runNextAmid dev [statusPoller s] (deriveAddresses s)))
  = Some [CheckDeviceStatusRequest STATUS.OK].
Proof. vm_compute. reflexivity. Qed.

(** X18: a probe whose poller was scheduled under another status than the
    current one is skipped: the queue takes it off and settles it without
    the session changing in any other way, whatever the device would have
    answered. *)
Theorem stale_probe_skipped (dev : Device) (s : Ledger) (l : string) (rest : list Request) :
  RequestQueue.running (requestQueue s) = true ->
  RequestQueue.current (requestQueue s) = None ->
  RequestQueue.pending (requestQueue s) = CheckDeviceStatusRequest l :: rest ->
  l <> status s ->
  runNext dev s = Some (set_requestQueue (RequestQueue.mk true rest None) s).
Proof.
  intros Hrun Hcur Hpend Hl.
  unfold runNext, beginNext, RequestQueue.next. rewrite Hrun, Hcur, Hpend.
  unfold execute. cbn [status set_requestQueue].
  apply String.eqb_neq in Hl. rewrite Hl. reflexivity.
Qed.

Lemma stale_probe_skipped_witness :
  runNext silent
    (enqueueRequests [CheckDeviceStatusRequest STATUS.LOCKED] (open (new_Ledger "usb")))
  = Some (set_requestQueue (RequestQueue.mk true [] None)
            (enqueueRequests [CheckDeviceStatusRequest STATUS.LOCKED] (open (new_Ledger "usb")))).
Proof.
  apply (stale_probe_skipped silent
           (enqueueRequests [CheckDeviceStatusRequest STATUS.LOCKED] (open (new_Ledger "usb")))
           STATUS.LOCKED []).
  - reflexivity.
  - reflexivity.
  - reflexivity.
  - discriminate.
Defined.

(** ** Verification against a silent device *)

(** X19: a verification request whose device call is never answered.
    Without [display] the 3000 ms timer ends it: the callback gets the
    descriptive time-out error and no result, once, and the session goes to
    NEEDS_RECONNECTION; the promise of [execute] resolves if the callback
    returns and rejects with what the callback threw otherwise.  With
    [display] there is no timer: the request never settles, so the queue
    begins nothing after it. *)
Theorem verifyAddress_unanswered
    (dev : Device) (index : nat) (currentAddress : string) (display : bool)
    (cb : Callback) (d : Derivation) (s : Ledger) :
  eth s <> None ->
  derivation s = Some d ->
  dev_getAddress dev (getPath d index) display true = Never ->
  (display = false ->
     exists ran,
       execute dev (VerifyAddressRequest index currentAddress display cb) s = Some ran /\
       callbacks ran = [mkCall (Some "verify address error: getAddress timed out") None] /\
       threw ran
       = option_map message
           (cb (mkCall (Some "verify address error: getAddress timed out") None)) /\
       status (after ran) = STATUS.NEEDS_RECONNECTION) /\
  (display = true ->
     execute dev (VerifyAddressRequest index currentAddress display cb) s = None).
Proof.
  intros Heth Hd Hdev. unfold execute, verifyAddress_begin, getAddress.
  destruct (eth s) as [app|]; [|contradiction]. rewrite Hd, Hdev.
  split; intros ->; cbn [negb race]; [|reflexivity].
  eexists. split; [reflexivity|].
  cbn [callbacks threw after verifyAddress_resume verifyAddress_catch].
  split; [reflexivity|]. split; [reflexivity|].
  apply status_handleError.
Qed.

Lemma verifyAddress_unanswered_witness :
  execute silent (VerifyAddressRequest 0 "0xABCD" true noCallback)
    (set_derivation (Some standard) (open (new_Ledger "usb")))
  = None.
Proof.
  apply (verifyAddress_unanswered silent 0 "0xABCD" true noCallback standard
           (set_derivation (Some standard) (open (new_Ledger "usb")))).
  - discriminate.
  - reflexivity.
  - reflexivity.
  - reflexivity.
Defined.

(** ** Derivation with no derivation selected *)

Lemma deriveAddresses_unselected s :
  derivation s = None ->
  RequestQueue.running (requestQueue s) = true ->
  RequestQueue.current (requestQueue s) = None ->
  status (deriveAddresses s) = STATUS.DERIVING /\
  addresses (deriveAddresses s) = [] /\
  requestQueue (deriveAddresses s) = RequestQueue.mk true [DeriveHardwareRequest None] None.
Proof.
  intros Hd Hrun Hcur.
  unfold deriveAddresses, deriveHardwareAddresses.
  set (s0 := emit "update" _).
  change (derivation s0) with (derivation s). rewrite Hd.
  cbn [option_Derivation_eqb].
  assert (Hq : requestQueue s0 = RequestQueue.mk true [] None).
  { subst s0. cbn [requestQueue emit]. rewrite requestQueue_updateStatus.
    cbn [requestQueue set_addresses set_requestQueue]. unfold RequestQueue.clear.
    now rewrite Hrun, Hcur. }
  assert (Hs : status s0 = STATUS.DERIVING)
    by (subst s0; now rewrite status_emit, status_updateStatus).
  assert (Ha : addresses s0 = []).
  { subst s0. change (addresses (emit "update" ?z)) with (addresses z).
    now rewrite addresses_updateStatus. }
  clearbody s0. unfold enqueueRequests.
  cbn [status addresses requestQueue set_requestQueue fold_left].
  rewrite Hq. auto.
Qed.

(** A bulk request begun with no derivation selected ends in the error
    path before any device call. *)
Lemma execute_unselected dev target x :
  derivation x = None ->
  status x <> STATUS.NEEDS_RECONNECTION ->
  execute dev (DeriveHardwareRequest target) x
  = Some (mkRan (close (emit "update" (updateStatus STATUS.NEEDS_RECONNECTION x))) [] None).
Proof.
  intros Hd Hs. unfold execute, deriveHardware_begin.
  destruct (eth x); [rewrite Hd|];
    now rewrite (handleError_reconnection (Error _) x eq_refl Hs).
Qed.

Lemma closed_after_update x :
  status (close (emit "update" (updateStatus STATUS.NEEDS_RECONNECTION x)))
  = STATUS.NEEDS_RECONNECTION /\
  addresses (close (emit "update" (updateStatus STATUS.NEEDS_RECONNECTION x)))
  = addresses x /\
  RequestQueue.pending
    (requestQueue (close (emit "update" (updateStatus STATUS.NEEDS_RECONNECTION x)))) = [].
Proof.
  rewrite status_close, addresses_close, status_emit, status_updateStatus, requestQueue_close.
  change (addresses (emit "update" ?z)) with (addresses z).
  rewrite addresses_updateStatus. repeat split.
Qed.

(** X20: when no derivation is selected, triggering derivation enqueues the
    bulk request, and running it fails before any device call: whatever the
    device, the session ends in NEEDS_RECONNECTION with [close()] called, no
    poller, an empty address list and nothing pending. *)
Theorem derivation_unselected_closes (dev : Device) (s : Ledger) :
  derivation s = None ->
  RequestQueue.running (requestQueue s) = true ->
  RequestQueue.current (requestQueue s) = None ->
  status (run dev (deriveAddresses s)) = STATUS.NEEDS_RECONNECTION /\
  addresses (run dev (deriveAddresses s)) = [] /\
  closeCalled (deriveAddresses s) (run dev (deriveAddresses s)) = true /\
  activePoller (run dev (deriveAddresses s)) = None /\
  RequestQueue.pending (requestQueue (run dev (deriveAddresses s))) = [].
Proof.
  intros Hd Hrun Hcur.
  destruct (deriveAddresses_unselected s Hd Hrun Hcur) as [Hs1 [Ha1 Hq1]].
  assert (Hd1 : derivation (deriveAddresses s) = None)
    by now rewrite derivation_deriveAddresses.
  generalize dependent (deriveAddresses s). intros s1 Hs1 Ha1 Hq1 Hd1.
  unfold run. rewrite Hq1. cbn [RequestQueue.pending length drain].
  unfold runNext, beginNext, RequestQueue.next. rewrite Hq1.
  cbn [RequestQueue.running RequestQueue.current RequestQueue.pending].
  set (x0 := set_requestQueue _ s1).
  assert (Hsx : status x0 <> STATUS.NEEDS_RECONNECTION).
  { subst x0. cbn [status set_requestQueue]. rewrite Hs1. discriminate. }
  rewrite (execute_unselected dev None x0 Hd1 Hsx). cbn [after].
  destruct (closed_after_update x0) as [Hy1 [Hy2 Hy3]].
  pose proof (closeCalled_close_emit_updateStatus "update" STATUS.NEEDS_RECONNECTION x0) as Hy4.
  pose proof (activePoller_close (emit "update" (updateStatus STATUS.NEEDS_RECONNECTION x0)))
    as Hy5.
  set (y := close _) in *.
  assert (Hax : addresses x0 = []) by exact Ha1.
  assert (Hcl : closeCalled s1 y = closeCalled x0 y) by reflexivity.
  clearbody y. clearbody x0.
  split; [exact Hy1|]. split; [cbn [addresses set_requestQueue]; congruence|].
  split.
  - unfold closeCalled, countEvent in *. cbn [closing emitted set_requestQueue].
    rewrite Hcl. exact Hy4.
  - split; [exact Hy5|].
    cbn [requestQueue set_requestQueue RequestQueue.settle RequestQueue.pending]. exact Hy3.
Qed.

Lemma derivation_unselected_closes_witness :
  status (run silent (deriveAddresses (open (new_Ledger "usb"))))
  = STATUS.NEEDS_RECONNECTION.
Proof.
  apply (derivation_unselected_closes silent (open (new_Ledger "usb"))); reflexivity.
Defined.
